(** * Cppcraft-2: chunk storage, terrain generation and surface meshing

    A shallow embedding of [src/world/chunk.cpp] (block storage, terrain
    generation, mesh construction, drawing and release), of the static
    helpers declared in [src/world/chunk.h], of the chunk key documented in
    [src/world/world.h], of [src/input/input_handler.cpp] and of
    [src/game.cpp], together with the properties the specification states
    about them and further properties read off the code.

    Conventions.
    - A C++ [int] is a [Z]; arithmetic on it is reduced to the 32-bit
      two's-complement range by [wrap_int], an [unsigned int] by
      [wrap_uint].
    - [std::vector<T>] is a [list T]; [v[i]] outside the vector has no
      defined behaviour in C++ and is [None] here, so every operation that
      indexes a vector lives in the [option] monad.
    - [float] arithmetic and the libm calls are kept abstract behind the
      class [FloatOps]; nothing proved below depends on rounding.
    - The OpenGL calls of [buildMesh] act on an explicit [GLState]. *)

From stdpp Require Import base option list list_numbers gmap strings.
From Stdlib Require Import ZArith Lia.

Local Open Scope Z_scope.

(** ** Machine integers *)

Definition INT_MIN : Z := - 2 ^ 31.
Definition INT_MAX : Z := 2 ^ 31 - 1.

(** Reduction to the range of a 32-bit signed [int]. *)
Definition wrap_int (n : Z) : Z := (n + 2 ^ 31) mod 2 ^ 32 - 2 ^ 31.

(** Reduction to the range of a 32-bit [unsigned int]. *)
Definition wrap_uint (n : Z) : Z := n mod 2 ^ 32.

Definition int_add (a b : Z) : Z := wrap_int (a + b).
Definition int_sub (a b : Z) : Z := wrap_int (a - b).
Definition int_mul (a b : Z) : Z := wrap_int (a * b).

(** ** [std::vector] access *)

(** [v[i]] for an [int] index: defined only inside the vector. *)
Definition vector_at {A} (v : list A) (i : Z) : option A :=
  if decide (0 ≤ i) then v !! Z.to_nat i else None.

(** [v[i] = a] for an [int] index: defined only inside the vector. *)
Definition vector_set {A} (v : list A) (i : Z) (a : A) : option (list A) :=
  if decide (0 ≤ i < Z.of_nat (length v)) then Some (<[Z.to_nat i := a]> v)
  else None.

(** ** Loops *)

(** [for (a : l) body], where the body may fail. *)
Fixpoint for_each {S A} (l : list A) (body : A → S → option S) (s : S)
  : option S :=
  match l with
  | [] => Some s
  | a :: l' =>
      match body a s with
      | Some s' => for_each l' body s'
      | None => None
      end
  end.

(** [for (int i = 0; i < n; ++i) body]. *)
Definition for_range {S} (n : Z) (body : Z → S → option S) (s : S)
  : option S :=
  for_each (seqZ 0 n) body s.

(** ** The header [chunk.h] *)

Module ChunkH.

Definition CHUNK_SIZE_X : Z := 16.
Definition CHUNK_SIZE_Y : Z := 256.
Definition CHUNK_SIZE_Z : Z := 16.
Definition CHUNK_VOLUME : Z :=
  int_mul (int_mul CHUNK_SIZE_X CHUNK_SIZE_Y) CHUNK_SIZE_Z.

Definition GetIndex (x y z : Z) : Z :=
  int_add (int_add (int_mul y (int_mul CHUNK_SIZE_X CHUNK_SIZE_Z))
                   (int_mul z CHUNK_SIZE_X))
          x.

Definition IsInBounds (x y z : Z) : bool :=
  (0 <=? x) && (x <? CHUNK_SIZE_X) &&
  (0 <=? y) && (y <? CHUNK_SIZE_Y) &&
  (0 <=? z) && (z <? CHUNK_SIZE_Z).

End ChunkH.

(** ** Block types and chunk dimensions used by [chunk.cpp] *)

(** Modelled from the spec: the enumeration [BlockType] that [chunk.cpp]
    uses ([BlockType::Air], [Stone], [Dirt], [Grass]) is declared in a
    header that is not among the sources.  The four enumerators that
    [chunk.cpp] names are constructors; [OtherBlock] stands for any
    further enumerator. *)
Inductive BlockType : Type :=
  | Air
  | Stone
  | Dirt
  | Grass
  | OtherBlock (id : N).

#[global] Instance BlockType_eq_dec : EqDecision BlockType.
Proof. solve_decision. Defined.

(** Modelled from the spec: [CHUNK_SIZE] and [CHUNK_HEIGHT] are used by
    [chunk.cpp] but declared in the missing header; the specification
    fixes the chunk volume to 16 x 256 x 16. *)
Definition CHUNK_SIZE : Z := 16.
Definition CHUNK_HEIGHT : Z := 256.

(** ** The chunk object *)

Record Chunk : Type := mkChunk {
  chunkX : Z;
  chunkY : Z;
  chunkZ : Z;
  world : Z;                (* World*, an opaque address *)
  blocks : list BlockType;  (* std::vector<BlockType> *)
  meshDirty : bool;
  meshBuilt : bool;
  vao : Z;
  vbo : Z;
  ebo : Z;
  vertexCount : Z;
  indexCount : Z
}.

Definition set_blocks (c : Chunk) (b : list BlockType) : Chunk :=
  mkChunk (chunkX c) (chunkY c) (chunkZ c) (world c) b (meshDirty c)
          (meshBuilt c) (vao c) (vbo c) (ebo c) (vertexCount c) (indexCount c).

Definition set_meshDirty (c : Chunk) (d : bool) : Chunk :=
  mkChunk (chunkX c) (chunkY c) (chunkZ c) (world c) (blocks c) d
          (meshBuilt c) (vao c) (vbo c) (ebo c) (vertexCount c) (indexCount c).

(** [Chunk::Chunk] *)
Definition newChunk (cx cy cz : Z) (w : Z) : Chunk :=
  {| chunkX := cx; chunkY := cy; chunkZ := cz; world := w;
     blocks :=
       replicate (Z.to_nat (int_mul (int_mul CHUNK_SIZE CHUNK_SIZE) CHUNK_HEIGHT))
                 Air;
     meshDirty := true; meshBuilt := false;
     vao := 0; vbo := 0; ebo := 0;
     vertexCount := 0; indexCount := 0 |}.

(** [Chunk::isInBounds] *)
Definition isInBounds (x y z : Z) : bool :=
  (0 <=? x) && (x <? CHUNK_SIZE) &&
  (0 <=? y) && (y <? CHUNK_HEIGHT) &&
  (0 <=? z) && (z <? CHUNK_SIZE).

(** [Chunk::getBlockIndex] *)
Definition getBlockIndex (x y z : Z) : Z :=
  int_add x (int_mul CHUNK_SIZE (int_add z (int_mul CHUNK_SIZE y))).

(** [Chunk::getBlock] *)
Definition getBlock (c : Chunk) (x y z : Z) : option BlockType :=
  if isInBounds x y z then vector_at (blocks c) (getBlockIndex x y z)
  else Some Air.

(** [Chunk::setBlock] *)
Definition setBlock (c : Chunk) (x y z : Z) (type : BlockType) : option Chunk :=
  if isInBounds x y z then
    b ← vector_set (blocks c) (getBlockIndex x y z) type;
    Some (set_meshDirty (set_blocks c b) true)
  else Some c.

(** [Chunk::markDirty] *)
Definition markDirty (c : Chunk) : Chunk := set_meshDirty c true.

(** The storage of a chunk has the size the constructor gave it. *)
Definition chunk_wf (c : Chunk) : Prop :=
  Z.of_nat (length (blocks c)) = CHUNK_SIZE * CHUNK_SIZE * CHUNK_HEIGHT.

(** ** Floating point *)

(** The single-precision operations that [chunk.cpp] uses.  They are left
    abstract: [f_of_int] is the conversion [int -> float], [f_to_int] is
    [static_cast<int>], [f_sin] and [f_cos] are [std::sin] and [std::cos]. *)
Class FloatOps : Type := {
  float : Type;
  f_of_int : Z → float;
  f_to_int : float → Z;
  f_add : float → float → float;
  f_mul : float → float → float;
  f_div : float → float → float;
  f_sin : float → float;
  f_cos : float → float
}.

(** [std::clamp(v, lo, hi)] on [int]. *)
Definition clamp (v lo hi : Z) : Z :=
  if v <? lo then lo else if hi <? v then hi else v.

(** Offset of the cell that face [face] of the cell [(x, y, z)] looks at:
    the [switch] at the head of [Chunk::addFaceIfExposed]. *)
Definition faceNeighbor (x y z face : Z) : Z * Z * Z :=
  if face =? 0 then (x, y, int_add z 1)
  else if face =? 1 then (x, y, int_sub z 1)
  else if face =? 2 then (int_sub x 1, y, z)
  else if face =? 3 then (int_add x 1, y, z)
  else if face =? 4 then (x, int_sub y 1, z)
  else if face =? 5 then (x, int_add y 1, z)
  else (x, y, z).

Section Engine.
Context {F : FloatOps}.

(** *** Terrain *)

(** [Chunk::generateHeight]; a [const] member function, so the chunk is
    an argument. *)
Definition generateHeight (c : Chunk) (x z : float) : Z :=
  let scale1 := f_of_int 50 in
  let scale2 := f_of_int 100 in
  let height := f_of_int 40 in
  let height := f_add height (f_mul (f_sin (f_div x scale1)) (f_of_int 15)) in
  let height := f_add height (f_mul (f_cos (f_div z scale2)) (f_of_int 15)) in
  let height :=
    f_add height (f_mul (f_sin (f_div (f_add x z) (f_of_int 75))) (f_of_int 10)) in
  clamp (f_to_int height) 1 (int_sub CHUNK_HEIGHT 1).

(** The block type that [Chunk::generate] picks for height [y] in a column
    of terrain height [height]. *)
Definition columnBlock (height y : Z) : BlockType :=
  if y <? int_sub height 3 then Stone
  else if y <? height then Dirt
  else if y =? height then Grass
  else Air.

Definition worldCoord (chunkCoord local : Z) : float :=
  f_of_int (int_add (int_mul chunkCoord CHUNK_SIZE) local).

(** [Chunk::generate] *)
Definition generate (c : Chunk) : option Chunk :=
  c ← for_range CHUNK_SIZE (λ x c,
        for_range CHUNK_SIZE (λ z c,
          let worldX := worldCoord (chunkX c) x in
          let worldZ := worldCoord (chunkZ c) z in
          let height := generateHeight c worldX worldZ in
          for_range CHUNK_HEIGHT (λ y c,
            setBlock c x y z (columnBlock height y)) c) c) c;
  Some (set_meshDirty c true).

(** *** The OpenGL objects a chunk owns *)

Inductive BufferTarget : Type := GL_ARRAY_BUFFER | GL_ELEMENT_ARRAY_BUFFER.

Inductive BufferData : Type :=
  | FloatData (data : list float)
  | UIntData (data : list Z).

Record VertexAttrib : Type := mkVertexAttrib {
  va_size : Z;
  va_stride : Z;
  va_offset : Z;
  va_buffer : Z
}.

Record GLState : Type := mkGL {
  gl_vertex_arrays : Z;         (* vertex array names generated so far *)
  gl_buffers : Z;               (* buffer names generated so far *)
  gl_bound_vertex_array : Z;
  gl_bound_array_buffer : Z;
  gl_bound_element_buffer : Z;
  gl_buffer_data : gmap Z BufferData;
  gl_attrib_pointers : gmap (Z * Z) VertexAttrib;
  gl_attrib_enabled : gset (Z * Z)
}.

Definition glGenVertexArrays (g : GLState) : Z * GLState :=
  let name := gl_vertex_arrays g + 1 in
  (name,
   mkGL name (gl_buffers g) (gl_bound_vertex_array g)
        (gl_bound_array_buffer g) (gl_bound_element_buffer g)
        (gl_buffer_data g) (gl_attrib_pointers g) (gl_attrib_enabled g)).

Definition glGenBuffers (g : GLState) : Z * GLState :=
  let name := gl_buffers g + 1 in
  (name,
   mkGL (gl_vertex_arrays g) name (gl_bound_vertex_array g)
        (gl_bound_array_buffer g) (gl_bound_element_buffer g)
        (gl_buffer_data g) (gl_attrib_pointers g) (gl_attrib_enabled g)).

Definition glBindVertexArray (a : Z) (g : GLState) : GLState :=
  mkGL (gl_vertex_arrays g) (gl_buffers g) a
       (gl_bound_array_buffer g) (gl_bound_element_buffer g)
       (gl_buffer_data g) (gl_attrib_pointers g) (gl_attrib_enabled g).

Definition glBindBuffer (t : BufferTarget) (b : Z) (g : GLState) : GLState :=
  match t with
  | GL_ARRAY_BUFFER =>
      mkGL (gl_vertex_arrays g) (gl_buffers g) (gl_bound_vertex_array g)
           b (gl_bound_element_buffer g)
           (gl_buffer_data g) (gl_attrib_pointers g) (gl_attrib_enabled g)
  | GL_ELEMENT_ARRAY_BUFFER =>
      mkGL (gl_vertex_arrays g) (gl_buffers g) (gl_bound_vertex_array g)
           (gl_bound_array_buffer g) b
           (gl_buffer_data g) (gl_attrib_pointers g) (gl_attrib_enabled g)
  end.

Definition boundBuffer (t : BufferTarget) (g : GLState) : Z :=
  match t with
  | GL_ARRAY_BUFFER => gl_bound_array_buffer g
  | GL_ELEMENT_ARRAY_BUFFER => gl_bound_element_buffer g
  end.

(** [glBufferData]: replaces the store of the buffer bound to [t]; with
    no buffer bound the call only raises a GL error. *)
Definition glBufferData (t : BufferTarget) (d : BufferData) (g : GLState)
  : GLState :=
  if boundBuffer t g =? 0 then g
  else
    mkGL (gl_vertex_arrays g) (gl_buffers g) (gl_bound_vertex_array g)
         (gl_bound_array_buffer g) (gl_bound_element_buffer g)
         (<[boundBuffer t g := d]> (gl_buffer_data g))
         (gl_attrib_pointers g) (gl_attrib_enabled g).

Definition glVertexAttribPointer (index size stride offset : Z) (g : GLState)
  : GLState :=
  mkGL (gl_vertex_arrays g) (gl_buffers g) (gl_bound_vertex_array g)
       (gl_bound_array_buffer g) (gl_bound_element_buffer g)
       (gl_buffer_data g)
       (<[(gl_bound_vertex_array g, index) :=
            mkVertexAttrib size stride offset (gl_bound_array_buffer g)]>
          (gl_attrib_pointers g))
       (gl_attrib_enabled g).

Definition glEnableVertexAttribArray (index : Z) (g : GLState) : GLState :=
  mkGL (gl_vertex_arrays g) (gl_buffers g) (gl_bound_vertex_array g)
       (gl_bound_array_buffer g) (gl_bound_element_buffer g)
       (gl_buffer_data g) (gl_attrib_pointers g)
       ({[(gl_bound_vertex_array g, index)]} ∪ gl_attrib_enabled g).

(** The data last uploaded through [glBufferData] to a buffer name. *)
Definition uploaded (g : GLState) (name : Z) : option BufferData :=
  gl_buffer_data g !! name.

Definition sizeof_float : Z := 4.

(** A context in which no object has been created yet. *)
Definition glInit : GLState := mkGL 0 0 0 0 0 ∅ ∅ ∅.

(** *** Meshing *)

(** The mesh under construction: [vertices] and [indices] of
    [Chunk::buildMesh]. *)
Definition Mesh : Type := list float * list Z.

(** [Chunk::getTextureCoord]; the components of the [glm::vec2]. *)
Definition getTextureCoord (c : Chunk) (blockType : BlockType) (face : Z)
  : float * float :=
  let texSize := f_div (f_of_int 1) (f_of_int 16) in
  match blockType with
  | Grass => (f_mul (f_of_int 0) texSize, f_mul (f_of_int 0) texSize)
  | Dirt => (f_mul (f_of_int 2) texSize, f_mul (f_of_int 0) texSize)
  | Stone => (f_mul (f_of_int 1) texSize, f_mul (f_of_int 0) texSize)
  | _ => (f_mul (f_of_int 0) texSize, f_mul (f_of_int 0) texSize)
  end.

(** One row of the vertex table of [Chunk::addFace]: position, texture
    coordinate, normal. *)
Definition vertex (px py pz : Z) (u v : float) (nx ny nz : Z) : list float :=
  [f_of_int px; f_of_int py; f_of_int pz; u; v;
   f_of_int nx; f_of_int ny; f_of_int nz].

(** The [switch] of [Chunk::addFace] that fills [faceVertices]. *)
Definition faceVertices (x y z face : Z) (texX texY : float) : list float :=
  let x1 := int_add x 1 in
  let y1 := int_add y 1 in
  let z1 := int_add z 1 in
  let texX1 := f_add texX (f_of_int 1) in
  let texY1 := f_add texY (f_of_int 1) in
  if face =? 0 then
    vertex x y z1 texX texY 0 0 1 ++ vertex x1 y z1 texX1 texY 0 0 1 ++
    vertex x1 y1 z1 texX1 texY1 0 0 1 ++ vertex x y1 z1 texX texY1 0 0 1
  else if face =? 1 then
    vertex x1 y z texX texY 0 0 (-1) ++ vertex x y z texX1 texY 0 0 (-1) ++
    vertex x y1 z texX1 texY1 0 0 (-1) ++ vertex x1 y1 z texX texY1 0 0 (-1)
  else if face =? 2 then
    vertex x y z texX texY (-1) 0 0 ++ vertex x y z1 texX1 texY (-1) 0 0 ++
    vertex x y1 z1 texX1 texY1 (-1) 0 0 ++ vertex x y1 z texX texY1 (-1) 0 0
  else if face =? 3 then
    vertex x1 y z1 texX texY 1 0 0 ++ vertex x1 y z texX1 texY 1 0 0 ++
    vertex x1 y1 z texX1 texY1 1 0 0 ++ vertex x1 y1 z1 texX texY1 1 0 0
  else if face =? 4 then
    vertex x y z1 texX texY 0 (-1) 0 ++ vertex x y z texX1 texY 0 (-1) 0 ++
    vertex x1 y z texX1 texY1 0 (-1) 0 ++ vertex x1 y z1 texX texY1 0 (-1) 0
  else if face =? 5 then
    vertex x y1 z texX texY 0 1 0 ++ vertex x y1 z1 texX1 texY 0 1 0 ++
    vertex x1 y1 z1 texX1 texY1 0 1 0 ++ vertex x1 y1 z texX texY1 0 1 0
  else [].

(** [Chunk::addFace] *)
Definition addFace (c : Chunk) (x y z face : Z) (blockType : BlockType)
    (m : Mesh) : Mesh :=
  let '(vertices, indices) := m in
  let baseIndex := wrap_uint (Z.of_nat (length vertices) / 8) in
  let texX := fst (getTextureCoord c blockType face) in
  let texY := snd (getTextureCoord c blockType face) in
  let vertices := vertices ++ faceVertices x y z face texX texY in
  let indices :=
    indices ++ [baseIndex; wrap_uint (baseIndex + 1); wrap_uint (baseIndex + 2);
                baseIndex; wrap_uint (baseIndex + 2); wrap_uint (baseIndex + 3)] in
  (vertices, indices).

(** [Chunk::addFaceIfExposed] *)
Definition addFaceIfExposed (c : Chunk) (x y z : Z) (blockType : BlockType)
    (face : Z) (m : Mesh) : option Mesh :=
  let '(nx, ny, nz) := faceNeighbor x y z face in
  neighborBlock ← getBlock c nx ny nz;
  if decide (neighborBlock ≠ Air) then Some m
  else Some (addFace c x y z face blockType m).

(** The body of the innermost loop of [Chunk::buildMesh]. *)
Definition meshBlock (c : Chunk) (x y z : Z) (m : Mesh) : option Mesh :=
  blockType ← getBlock c x y z;
  if decide (blockType = Air) then Some m
  else
    m ← addFaceIfExposed c x y z blockType 0 m;
    m ← addFaceIfExposed c x y z blockType 1 m;
    m ← addFaceIfExposed c x y z blockType 2 m;
    m ← addFaceIfExposed c x y z blockType 3 m;
    m ← addFaceIfExposed c x y z blockType 4 m;
    addFaceIfExposed c x y z blockType 5 m.

(** The three nested loops of [Chunk::buildMesh]. *)
Definition meshLoops (c : Chunk) : option Mesh :=
  for_range CHUNK_SIZE (λ x m,
    for_range CHUNK_HEIGHT (λ y m,
      for_range CHUNK_SIZE (λ z m, meshBlock c x y z m) m) m) ([], []).

(** The second half of [Chunk::buildMesh]: the counts are stored, the
    OpenGL objects are created on the first build and filled, and the flags
    are reset. *)
Definition uploadMesh (c : Chunk) (g : GLState) (m : Mesh) : Chunk * GLState :=
  let '(vertices, indices) := m in
  let vertexCount' := Z.of_nat (length vertices) / 8 in
  let indexCount' := Z.of_nat (length indices) in
  let '(vao', vbo', ebo', g) :=
    if negb (meshBuilt c) then
      let '(a, g) := glGenVertexArrays g in
      let '(b, g) := glGenBuffers g in
      let '(e, g) := glGenBuffers g in
      (a, b, e, g)
    else (vao c, vbo c, ebo c, g) in
  let g := glBindVertexArray vao' g in
  let g := glBindBuffer GL_ARRAY_BUFFER vbo' g in
  let g := glBufferData GL_ARRAY_BUFFER (FloatData vertices) g in
  let g := glBindBuffer GL_ELEMENT_ARRAY_BUFFER ebo' g in
  let g := glBufferData GL_ELEMENT_ARRAY_BUFFER (UIntData indices) g in
  let g := glVertexAttribPointer 0 3 (8 * sizeof_float) 0 g in
  let g := glEnableVertexAttribArray 0 g in
  let g := glVertexAttribPointer 1 2 (8 * sizeof_float) (3 * sizeof_float) g in
  let g := glEnableVertexAttribArray 1 g in
  let g := glVertexAttribPointer 2 3 (8 * sizeof_float) (5 * sizeof_float) g in
  let g := glEnableVertexAttribArray 2 g in
  let g := glBindBuffer GL_ARRAY_BUFFER 0 g in
  let g := glBindVertexArray 0 g in
  ({| chunkX := chunkX c; chunkY := chunkY c; chunkZ := chunkZ c;
      world := world c; blocks := blocks c;
      meshDirty := false; meshBuilt := true;
      vao := vao'; vbo := vbo'; ebo := ebo';
      vertexCount := vertexCount'; indexCount := indexCount' |}, g).

(** [Chunk::buildMesh] past its early return. *)
Definition rebuildMesh (c : Chunk) (g : GLState) : option (Chunk * GLState) :=
  m ← meshLoops c;
  Some (uploadMesh c g m).

(** [Chunk::buildMesh] *)
Definition buildMesh (c : Chunk) (g : GLState) : option (Chunk * GLState) :=
  if negb (meshDirty c) && meshBuilt c then Some (c, g)
  else rebuildMesh c g.

(** [Chunk::update] *)
Definition update (c : Chunk) (g : GLState) : option (Chunk * GLState) :=
  if meshDirty c then buildMesh c g else Some (c, g).

End Engine.

(** ** Counting exposed faces *)

(** Whether the cell next to face [face] of [(x, y, z)], looked up with
    [getBlock] in the same chunk, is air. *)
Definition neighborIsAir (c : Chunk) (x y z face : Z) : bool :=
  let '(nx, ny, nz) := faceNeighbor x y z face in
  bool_decide (getBlock c nx ny nz = Some Air).

Definition sumZ {A} (f : A → Z) (l : list A) : Z :=
  foldr (λ a acc, f a + acc) 0 l.

(** Number of faces of the cell [(x, y, z)] that are exposed: none for an
    air cell, otherwise the number of air neighbours. *)
Definition blockFaces (c : Chunk) (x y z : Z) : Z :=
  if decide (getBlock c x y z = Some Air) then 0
  else sumZ (λ face, if neighborIsAir c x y z face then 1 else 0) (seqZ 0 6).

(** Number of exposed faces of the whole chunk. *)
Definition chunkFaces (c : Chunk) : Z :=
  sumZ (λ x, sumZ (λ y, sumZ (λ z, blockFaces c x y z) (seqZ 0 CHUNK_SIZE))
                  (seqZ 0 CHUNK_HEIGHT))
       (seqZ 0 CHUNK_SIZE).

(** ** The chunk key of [world.h] *)

(** Modelled from the spec: [World::chunkKey] is declared in [world.h] and
    defined in a source file that is not available; [world.h] and the
    specification give its format, [(chunkX << 16) | (chunkZ & 0xFFFF)],
    with the result type [long long]. *)
Definition chunkKey (chunkX chunkZ : Z) : Z :=
  Z.lor (Z.shiftl chunkX 16) (Z.land chunkZ 65535).

(** ** Vocabulary of the statements *)

Section Vocabulary.
Context {F : FloatOps}.

(** The terrain height [Chunk::generate] computes for the column [(x, z)]
    of the chunk [c]: [generateHeight(worldX, worldZ)]. *)
Definition terrainHeight (c : Chunk) (x z : Z) : Z :=
  generateHeight c (worldCoord (chunkX c) x) (worldCoord (chunkZ c) z).

(** The block [Chunk::generate] writes at [(x, y, z)] of the chunk [c]. *)
Definition terrainBlock (c : Chunk) (x y z : Z) : BlockType :=
  columnBlock (terrainHeight c x z) y.

(** [op] is defined on every well-sized chunk at the position of [c0];
    it keeps size and position, writes the terrain block of [c0] to every
    in-bounds cell of the region [R], and leaves every other in-bounds cell
    either with that terrain block or as it was. *)
Definition fills (c0 : Chunk) (op : Chunk → option Chunk)
    (R : Z → Z → Z → Prop) : Prop :=
  ∀ c, chunk_wf c → chunkX c = chunkX c0 → chunkZ c = chunkZ c0 →
    ∃ c', op c = Some c' ∧ chunk_wf c' ∧
      chunkX c' = chunkX c0 ∧ chunkZ c' = chunkZ c0 ∧
      ∀ x y z, isInBounds x y z = true →
        (R x y z → getBlock c' x y z = Some (terrainBlock c0 x y z)) ∧
        (getBlock c' x y z = Some (terrainBlock c0 x y z) ∨
         getBlock c' x y z = getBlock c x y z).

(** The mesh [m'] is the mesh [m] extended by [n] faces: 4 vertices of 8
    floats and 6 indices each. *)
Definition meshGrows (m m' : Mesh) (n : Z) : Prop :=
  Z.of_nat (length (fst m')) = Z.of_nat (length (fst m)) + 32 * n ∧
  Z.of_nat (length (snd m')) = Z.of_nat (length (snd m)) + 6 * n.

End Vocabulary.

(** A stand-in for [FloatOps] on which the definitions can be run:
    integers for floats, truncating division, and constant [sin] and
    [cos]. *)
Definition toyFloat : FloatOps :=
  {| float := Z;
     f_of_int := λ n, n;
     f_to_int := λ q, wrap_int q;
     f_add := Z.add;
     f_mul := Z.mul;
     f_div := Z.quot;
     f_sin := λ _, 0;
     f_cos := λ _, 1 |}.

(** The chunk [setBlock(5, 64, 5, Stone)] leaves when called on a new
    chunk: a single stone block in air. *)
Definition oneBlockChunk : Chunk :=
  default (newChunk 0 0 0 0) (setBlock (newChunk 0 0 0 0) 5 64 5 Stone).

(** The same chunk with a dirt block placed on top of the stone block. *)
Definition twoBlockChunk : Chunk :=
  default oneBlockChunk (setBlock oneBlockChunk 5 65 5 Dirt).

(** ** The remaining members of [chunk.cpp] *)

(** One [glDrawElements(GL_TRIANGLES, count, GL_UNSIGNED_INT, 0)]: the
    vertex array it reads and the number of indices it draws.  The model
    keeps no framebuffer, so a draw call is recorded rather than executed. *)
Record DrawCall : Type := mkDraw {
  dc_vertex_array : Z;
  dc_count : Z
}.

Section EngineRest.
Context {F : FloatOps}.

Definition glDrawElements (count : Z) (g : GLState) : DrawCall :=
  mkDraw (gl_bound_vertex_array g) count.

(** [glDeleteBuffers(1, &name)]: the store of the buffer is released and a
    binding to it reverts to zero. *)
Definition glDeleteBuffers (name : Z) (g : GLState) : GLState :=
  mkGL (gl_vertex_arrays g) (gl_buffers g) (gl_bound_vertex_array g)
       (if gl_bound_array_buffer g =? name then 0 else gl_bound_array_buffer g)
       (if gl_bound_element_buffer g =? name then 0
        else gl_bound_element_buffer g)
       (delete name (gl_buffer_data g))
       (gl_attrib_pointers g) (gl_attrib_enabled g).

(** [glDeleteVertexArrays(1, &name)]: the attribute state of the vertex
    array is released and a binding to it reverts to zero. *)
Definition glDeleteVertexArrays (name : Z) (g : GLState) : GLState :=
  mkGL (gl_vertex_arrays g) (gl_buffers g)
       (if gl_bound_vertex_array g =? name then 0 else gl_bound_vertex_array g)
       (gl_bound_array_buffer g) (gl_bound_element_buffer g)
       (gl_buffer_data g)
       (filter (λ kv, fst (fst kv) ≠ name) (gl_attrib_pointers g))
       (filter (λ k, fst k ≠ name) (gl_attrib_enabled g)).

(** [Chunk::render]; the draw calls issued are returned beside the state. *)
Definition render (c : Chunk) (g : GLState) : GLState * list DrawCall :=
  if negb (meshBuilt c) then (g, [])
  else
    let g := glBindVertexArray (vao c) g in
    let d := glDrawElements (indexCount c) g in
    let g := glBindVertexArray 0 g in
    (g, [d]).

(** [Chunk::cleanup] *)
Definition cleanup (c : Chunk) (g : GLState) : Chunk * GLState :=
  if meshBuilt c then
    let g := glDeleteBuffers (vbo c) g in
    let g := glDeleteBuffers (ebo c) g in
    let g := glDeleteVertexArrays (vao c) g in
    ({| chunkX := chunkX c; chunkY := chunkY c; chunkZ := chunkZ c;
        world := world c; blocks := blocks c;
        meshDirty := meshDirty c; meshBuilt := false;
        vao := vao c; vbo := vbo c; ebo := ebo c;
        vertexCount := vertexCount c; indexCount := indexCount c |}, g)
  else (c, g).


(** [Chunk::isLoaded] *)
Definition isLoaded (c : Chunk) : bool := meshBuilt c.

(** *** Sequences of calls on one chunk *)

(** The calls a client can make on a chunk. *)
Inductive ChunkOp : Type :=
  | OpSetBlock (x y z : Z) (type : BlockType)
  | OpGenerate
  | OpMarkDirty
  | OpBuildMesh
  | OpUpdate
  | OpRender
  | OpCleanup.

Definition runOp (op : ChunkOp) (s : Chunk * GLState)
  : option (Chunk * GLState) :=
  let '(c, g) := s in
  match op with
  | OpSetBlock x y z type => c' ← setBlock c x y z type; Some (c', g)
  | OpGenerate => c' ← generate c; Some (c', g)
  | OpMarkDirty => Some (markDirty c, g)
  | OpBuildMesh => buildMesh c g
  | OpUpdate => update c g
  | OpRender => Some (c, fst (render c g))
  | OpCleanup => Some (cleanup c g)
  end.

Definition runOps (ops : list ChunkOp) (s : Chunk * GLState)
  : option (Chunk * GLState) :=
  for_each ops runOp s.

(** What holds of a chunk and the OpenGL state between calls: the storage
    has its size; a built chunk holds two distinct buffer names that have
    been generated; and when the chunk is built and not dirty, the buffers
    hold the mesh of the current blocks and the counts are those of that
    mesh. *)
Definition chunkInv (s : Chunk * GLState) : Prop :=
  let '(c, g) := s in
  chunk_wf c ∧
  0 ≤ gl_vertex_arrays g ∧ 0 ≤ gl_buffers g ∧
  (meshBuilt c = true →
     0 < vbo c ≤ gl_buffers g ∧ 0 < ebo c ≤ gl_buffers g ∧ vbo c ≠ ebo c) ∧
  (meshBuilt c = true → meshDirty c = false →
     ∃ m, meshLoops c = Some m ∧
       uploaded g (vbo c) = Some (FloatData (fst m)) ∧
       uploaded g (ebo c) = Some (UIntData (snd m)) ∧
       vertexCount c = 4 * chunkFaces c ∧
       indexCount c = 6 * chunkFaces c).

(** *** Geometry of a face *)

(** Position of the [k]-th vertex in a vertex buffer, read back through
    [dec]. *)
Definition vertexPosition (dec : float → Z) (vs : list float) (k : nat)
  : option (Z * Z * Z) :=
  match drop (8 * k) vs with
  | px :: py :: pz :: _ => Some (dec px, dec py, dec pz)
  | _ => None
  end.

(** Normal of the [k]-th vertex in a vertex buffer, read back through
    [dec]. *)
Definition vertexNormal (dec : float → Z) (vs : list float) (k : nat)
  : option (Z * Z * Z) :=
  match drop (8 * k + 5) vs with
  | nx :: ny :: nz :: _ => Some (dec nx, dec ny, dec nz)
  | _ => None
  end.

(** Texture coordinate of the [k]-th vertex in a vertex buffer. *)
Definition vertexTex (vs : list float) (k : nat) : option (float * float) :=
  match drop (8 * k + 3) vs with
  | u :: v :: _ => Some (u, v)
  | _ => None
  end.

End EngineRest.

Definition sub3 (a b : Z * Z * Z) : Z * Z * Z :=
  let '(ax, ay, az) := a in
  let '(bx, by_, bz) := b in
  (ax - bx, ay - by_, az - bz).

Definition cross3 (a b : Z * Z * Z) : Z * Z * Z :=
  let '(ax, ay, az) := a in
  let '(bx, by_, bz) := b in
  (ay * bz - az * by_, az * bx - ax * bz, ax * by_ - ay * bx).

(** The face on the other side of the cell boundary: front and back, left
    and right, bottom and top are paired. *)
Definition oppositeFace (face : Z) : Z :=
  if face =? 0 then 1
  else if face =? 1 then 0
  else if face =? 2 then 3
  else if face =? 3 then 2
  else if face =? 4 then 5
  else if face =? 5 then 4
  else face.

(** Every index of the mesh refers to one of its vertices, and the vertex
    buffer is a whole number of faces. *)
Definition meshValid {F : FloatOps} (m : Mesh) : Prop :=
  ∃ n, 0 ≤ n ∧ Z.of_nat (length (fst m)) = 32 * n ∧
       Z.of_nat (length (snd m)) = 6 * n ∧
       ∀ i, i ∈ snd m → 0 ≤ i < 4 * n.

(** The chunk [c'] differs from [c] in at most its blocks and its dirty
    flag. *)
Definition sameFrame (c c' : Chunk) : Prop :=
  chunkX c' = chunkX c ∧ chunkY c' = chunkY c ∧ chunkZ c' = chunkZ c ∧
  world c' = world c ∧ meshBuilt c' = meshBuilt c ∧
  vao c' = vao c ∧ vbo c' = vbo c ∧ ebo c' = ebo c ∧
  vertexCount c' = vertexCount c ∧ indexCount c' = indexCount c.

(** ** [input_handler.cpp] *)

Module Input.

(** The members [InputHandler::InputHandler] initialises.  [m_keyStates] is
    an array of [bool] whose size is fixed by a header that is not among the
    sources; here it is a list of any length. *)
Record InputHandler : Type := mkInput {
  m_isRunning : bool;
  m_mouseX : Z;
  m_mouseY : Z;
  m_mousePressed : bool;
  m_scrollDelta : Z;
  m_keyStates : list bool
}.

Definition set_keyStates (h : InputHandler) (ks : list bool) : InputHandler :=
  mkInput (m_isRunning h) (m_mouseX h) (m_mouseY h) (m_mousePressed h)
          (m_scrollDelta h) ks.

(** [std::fill(begin, end, false)] and [std::array::fill(false)]. *)
Definition fill_false (ks : list bool) : list bool :=
  replicate (length ks) false.

(** [InputHandler::InputHandler]; [storage] is what the key array holds
    before the constructor body fills it. *)
Definition newInputHandler (storage : list bool) : InputHandler :=
  mkInput true 0 0 false 0 (fill_false storage).

(** [static_cast<int>(m_keyStates.size())] *)
Definition keyCount (h : InputHandler) : Z :=
  wrap_int (Z.of_nat (length (m_keyStates h))).

(** The guard shared by the three key functions. *)
Definition keyInRange (h : InputHandler) (keyCode : Z) : bool :=
  (0 <=? keyCode) && (keyCode <? keyCount h).

(** [InputHandler::initialize]; nothing in its [try] block throws. *)
Definition initialize (h : InputHandler) : bool * InputHandler :=
  (true,
   mkInput true (m_mouseX h) (m_mouseY h) (m_mousePressed h)
           (m_scrollDelta h) (m_keyStates h)).

(** [InputHandler::cleanup] *)
Definition cleanup (h : InputHandler) : InputHandler :=
  mkInput false (m_mouseX h) (m_mouseY h) (m_mousePressed h)
          (m_scrollDelta h) (fill_false (m_keyStates h)).

(** [InputHandler::handleKeyDown] *)
Definition handleKeyDown (h : InputHandler) (keyCode : Z) : option InputHandler :=
  if keyInRange h keyCode then
    ks ← vector_set (m_keyStates h) keyCode true;
    Some (set_keyStates h ks)
  else Some h.

(** [InputHandler::handleKeyUp] *)
Definition handleKeyUp (h : InputHandler) (keyCode : Z) : option InputHandler :=
  if keyInRange h keyCode then
    ks ← vector_set (m_keyStates h) keyCode false;
    Some (set_keyStates h ks)
  else Some h.

(** [InputHandler::isKeyPressed] *)
Definition isKeyPressed (h : InputHandler) (keyCode : Z) : option bool :=
  if keyInRange h keyCode then vector_at (m_keyStates h) keyCode
  else Some false.

(** [InputHandler::handleMouseMove] *)
Definition handleMouseMove (h : InputHandler) (x y : Z) : InputHandler :=
  mkInput (m_isRunning h) x y (m_mousePressed h) (m_scrollDelta h)
          (m_keyStates h).

(** [InputHandler::handleMouseDown] *)
Definition handleMouseDown (h : InputHandler) (button : Z) : InputHandler :=
  if button =? 0 then
    mkInput (m_isRunning h) (m_mouseX h) (m_mouseY h) true (m_scrollDelta h)
            (m_keyStates h)
  else h.

(** [InputHandler::handleMouseUp] *)
Definition handleMouseUp (h : InputHandler) (button : Z) : InputHandler :=
  if button =? 0 then
    mkInput (m_isRunning h) (m_mouseX h) (m_mouseY h) false (m_scrollDelta h)
            (m_keyStates h)
  else h.

(** [InputHandler::handleMouseScroll] *)
Definition handleMouseScroll (h : InputHandler) (delta : Z) : InputHandler :=
  mkInput (m_isRunning h) (m_mouseX h) (m_mouseY h) (m_mousePressed h) delta
          (m_keyStates h).

(** [InputHandler::clearScrollDelta] *)
Definition clearScrollDelta (h : InputHandler) : InputHandler :=
  mkInput (m_isRunning h) (m_mouseX h) (m_mouseY h) (m_mousePressed h) 0
          (m_keyStates h).

(** [InputHandler::resetInputState] *)
Definition resetInputState (h : InputHandler) : InputHandler :=
  mkInput (m_isRunning h) (m_mouseX h) (m_mouseY h) false 0
          (fill_false (m_keyStates h)).

(** [InputHandler::getMousePosition]; the two reference parameters. *)
Definition getMousePosition (h : InputHandler) : Z * Z :=
  (m_mouseX h, m_mouseY h).

(** [InputHandler::setRunning] *)
Definition setRunning (h : InputHandler) (running : bool) : InputHandler :=
  mkInput running (m_mouseX h) (m_mouseY h) (m_mousePressed h)
          (m_scrollDelta h) (m_keyStates h).

(** The events a client can deliver to the handler. *)
Inductive Event : Type :=
  | KeyDown (keyCode : Z)
  | KeyUp (keyCode : Z)
  | MouseMove (x y : Z)
  | MouseDown (button : Z)
  | MouseUp (button : Z)
  | MouseScroll (delta : Z)
  | ClearScroll
  | Reset.

Definition deliver (e : Event) (h : InputHandler) : option InputHandler :=
  match e with
  | KeyDown k => handleKeyDown h k
  | KeyUp k => handleKeyUp h k
  | MouseMove x y => Some (handleMouseMove h x y)
  | MouseDown b => Some (handleMouseDown h b)
  | MouseUp b => Some (handleMouseUp h b)
  | MouseScroll d => Some (handleMouseScroll h d)
  | ClearScroll => Some (clearScrollDelta h)
  | Reset => Some (resetInputState h)
  end.

(** The last [KeyDown] or [KeyUp] for [keyCode] in a list of events, with
    [Reset] counting as a release; [None] when no event concerns the key. *)
Fixpoint lastKeyEvent (keyCode : Z) (es : list Event) : option bool :=
  match es with
  | [] => None
  | e :: es' =>
      match lastKeyEvent keyCode es' with
      | Some b => Some b
      | None =>
          match e with
          | KeyDown k => if decide (k = keyCode) then Some true else None
          | KeyUp k => if decide (k = keyCode) then Some false else None
          | Reset => Some false
          | _ => None
          end
      end
  end.

End Input.

(** ** [game.cpp] *)

Module GameApp.

Inductive Stream : Type := Cout | Cerr.

(** What is inserted into a stream before a [std::endl]. *)
Inductive OutItem : Type :=
  | Text (s : string)
  | Num (n : Z).

(** One line of output: the stream and what was written to it. *)
Definition Line : Type := Stream * list OutItem.

(** The members [Game::Game] initialises, and the lines written so far. *)
Record Game : Type := mkGame {
  isRunning : bool;
  isInitialized : bool;
  windowWidth : Z;
  windowHeight : Z;
  output : list Line
}.

Definition print (st : Stream) (items : list OutItem) (g : Game) : Game :=
  mkGame (isRunning g) (isInitialized g) (windowWidth g) (windowHeight g)
         (output g ++ [(st, items)]).

(** [Game::Game] *)
Definition newGame : Game :=
  print Cout [Text "Game object created"] (mkGame false false 800 600 []).

(** [Game::initializeGraphics] *)
Definition initializeGraphics (g : Game) : bool * Game :=
  (true, print Cout [Text "Initializing graphics system..."] g).

(** [Game::initializeInput] *)
Definition initializeInput (g : Game) : bool * Game :=
  (true, print Cout [Text "Initializing input system..."] g).

(** [Game::initializeGameLogic] *)
Definition initializeGameLogic (g : Game) : bool * Game :=
  (true, print Cout [Text "Initializing game logic..."] g).

(** [Game::cleanup] *)
Definition cleanup (g : Game) : Game :=
  print Cout [Text "Cleaning up game resources..."] g.

(** [Game::initialize]; nothing in its [try] block throws. *)
Definition initialize (g : Game) : bool * Game :=
  if isInitialized g then
    (false, print Cerr [Text "Game is already initialized"] g)
  else
    let g := print Cout [Text "Initializing game systems..."] g in
    let '(ok, g) := initializeGraphics g in
    if negb ok then
      (false, print Cerr [Text "Failed to initialize graphics"] g)
    else
      let '(ok, g) := initializeInput g in
      if negb ok then
        (false, cleanup (print Cerr [Text "Failed to initialize input"] g))
      else
        let '(ok, g) := initializeGameLogic g in
        if negb ok then
          (false,
           cleanup (print Cerr [Text "Failed to initialize game logic"] g))
        else
          let g := mkGame (isRunning g) true (windowWidth g) (windowHeight g)
                          (output g) in
          (true, print Cout [Text "Game initialized successfully"] g).

(** [Game::shutdown] *)
Definition shutdown (g : Game) : Game :=
  if negb (isInitialized g) then g
  else
    let g := print Cout [Text "Shutting down game..."] g in
    let g := mkGame false (isInitialized g) (windowWidth g) (windowHeight g)
                    (output g) in
    let g := cleanup g in
    let g := mkGame (isRunning g) false (windowWidth g) (windowHeight g)
                    (output g) in
    print Cout [Text "Game shutdown complete"] g.

(** [Game::handleInput], [updateGameLogic], [clearScreen], [renderGame] and
    [presentFrame] have empty bodies. *)
Definition handleInput (g : Game) : Game := g.
Definition updateGameLogic (g : Game) : Game := g.
Definition clearScreen (g : Game) : Game := g.
Definition renderGame (g : Game) : Game := g.
Definition presentFrame (g : Game) : Game := g.

(** [Game::update] *)
Definition update (g : Game) : bool * Game :=
  let g := handleInput g in
  let g := updateGameLogic g in
  (isRunning g, g).

(** [Game::render] *)
Definition render (g : Game) : bool * Game :=
  let g := clearScreen g in
  let g := renderGame g in
  let g := presentFrame g in
  (true, g).




(** [Game::setWindowSize] *)
Definition setWindowSize (width height : Z) (g : Game) : Game :=
  if (0 <? width) && (0 <? height) then
    let g := mkGame (isRunning g) (isInitialized g) width height (output g) in
    print Cout [Text "Window size set to "; Num width; Text "x"; Num height] g
  else print Cerr [Text "Invalid window dimensions"] g.

(** The last pair with both components positive in a list of requested
    sizes. *)
Fixpoint lastValidSize (sizes : list (Z * Z)) : option (Z * Z) :=
  match sizes with
  | [] => None
  | (w, h) :: sizes' =>
      match lastValidSize sizes' with
      | Some s => Some s
      | None => if (0 <? w) && (0 <? h) then Some (w, h) else None
      end
  end.

(** The lines a game wrote to [std::cerr]. *)
Definition errors (g : Game) : list (list OutItem) :=
  omap (λ l, match fst l with Cerr => Some (snd l) | Cout => None end)
       (output g).

End GameApp.

(** * Properties *)

(** ** Machine integers *)

Lemma wrap_int_small (n : Z) : INT_MIN ≤ n ≤ INT_MAX → wrap_int n = n.
Proof.
  unfold INT_MIN, INT_MAX, wrap_int. intros H.
  rewrite Z.mod_small by lia. lia.
Qed.

Lemma wrap_uint_small (n : Z) : 0 ≤ n < 2 ^ 32 → wrap_uint n = n.
Proof. unfold wrap_uint. intros H. by rewrite Z.mod_small. Qed.

Lemma int_add_small (a b : Z) :
  INT_MIN ≤ a + b ≤ INT_MAX → int_add a b = a + b.
Proof. apply wrap_int_small. Qed.

Lemma int_sub_small (a b : Z) :
  INT_MIN ≤ a - b ≤ INT_MAX → int_sub a b = a - b.
Proof. apply wrap_int_small. Qed.

Lemma int_mul_small (a b : Z) :
  INT_MIN ≤ a * b ≤ INT_MAX → int_mul a b = a * b.
Proof. apply wrap_int_small. Qed.

(** Simplifies wrapped arithmetic whose operands are visibly small. *)
Ltac int_small :=
  repeat match goal with
    | |- context [int_mul ?a ?b] =>
        rewrite (int_mul_small a b) by (unfold INT_MIN, INT_MAX; lia)
    | |- context [int_add ?a ?b] =>
        rewrite (int_add_small a b) by (unfold INT_MIN, INT_MAX; lia)
    | |- context [int_sub ?a ?b] =>
        rewrite (int_sub_small a b) by (unfold INT_MIN, INT_MAX; lia)
    end.

(** ** Bounds and the linear index *)

Lemma isInBounds_true (x y z : Z) :
  isInBounds x y z = true ↔ 0 ≤ x < 16 ∧ 0 ≤ y < 256 ∧ 0 ≤ z < 16.
Proof.
  unfold isInBounds, CHUNK_SIZE, CHUNK_HEIGHT.
  rewrite !andb_true_iff, !Z.leb_le, !Z.ltb_lt. lia.
Qed.

Lemma isInBounds_false (x y z : Z) :
  isInBounds x y z = false ↔ ¬ (0 ≤ x < 16 ∧ 0 ≤ y < 256 ∧ 0 ≤ z < 16).
Proof. rewrite <- isInBounds_true. by destruct (isInBounds x y z). Qed.

Lemma IsInBounds_header (x y z : Z) :
  ChunkH.IsInBounds x y z = isInBounds x y z.
Proof. reflexivity. Qed.

Lemma getBlockIndex_small (x y z : Z) :
  0 ≤ x < 16 → 0 ≤ y < 256 → 0 ≤ z < 16 →
  getBlockIndex x y z = y * 256 + z * 16 + x.
Proof.
  intros Hx Hy Hz. unfold getBlockIndex, CHUNK_SIZE. int_small. lia.
Qed.

Lemma GetIndex_small (x y z : Z) :
  0 ≤ x < 16 → 0 ≤ y < 256 → 0 ≤ z < 16 →
  ChunkH.GetIndex x y z = y * 256 + z * 16 + x.
Proof.
  intros Hx Hy Hz.
  unfold ChunkH.GetIndex, ChunkH.CHUNK_SIZE_X, ChunkH.CHUNK_SIZE_Z.
  int_small. lia.
Qed.

Lemma getBlockIndex_range (x y z : Z) :
  isInBounds x y z = true → 0 ≤ getBlockIndex x y z < 65536.
Proof.
  rewrite isInBounds_true. intros (Hx & Hy & Hz).
  rewrite getBlockIndex_small by done. lia.
Qed.

Lemma getBlockIndex_inj (x1 y1 z1 x2 y2 z2 : Z) :
  isInBounds x1 y1 z1 = true → isInBounds x2 y2 z2 = true →
  getBlockIndex x1 y1 z1 = getBlockIndex x2 y2 z2 →
  x1 = x2 ∧ y1 = y2 ∧ z1 = z2.
Proof.
  rewrite !isInBounds_true. intros (Hx1 & Hy1 & Hz1) (Hx2 & Hy2 & Hz2).
  rewrite !getBlockIndex_small by done. lia.
Qed.

(** ** Block storage *)

Lemma chunk_wf_length (c : Chunk) :
  chunk_wf c → Z.of_nat (length (blocks c)) = 65536.
Proof. unfold chunk_wf, CHUNK_SIZE, CHUNK_HEIGHT. lia. Qed.

Lemma newChunk_wf (cx cy cz w : Z) : chunk_wf (newChunk cx cy cz w).
Proof.
  unfold chunk_wf, newChunk, CHUNK_SIZE, CHUNK_HEIGHT. cbn [blocks].
  rewrite length_replicate. int_small. lia.
Qed.

Lemma vector_at_Some {A} (v : list A) (i : Z) :
  0 ≤ i < Z.of_nat (length v) → is_Some (vector_at v i).
Proof.
  intros H. unfold vector_at. rewrite decide_True by lia.
  apply lookup_lt_is_Some. lia.
Qed.

Lemma vector_at_set_eq {A} (v v' : list A) (i : Z) (a : A) :
  vector_set v i a = Some v' → vector_at v' i = Some a.
Proof.
  unfold vector_set, vector_at. intros H. case_decide; [|done].
  simplify_eq. rewrite decide_True by lia.
  apply list_lookup_insert_eq. lia.
Qed.

Lemma vector_at_set_ne {A} (v v' : list A) (i j : Z) (a : A) :
  0 ≤ j → i ≠ j →
  vector_set v i a = Some v' → vector_at v' j = vector_at v j.
Proof.
  unfold vector_set, vector_at. intros Hj Hij H. case_decide; [|done].
  simplify_eq. rewrite !decide_True by lia.
  apply list_lookup_insert_ne. lia.
Qed.

Lemma vector_set_length {A} (v v' : list A) (i : Z) (a : A) :
  vector_set v i a = Some v' → length v' = length v.
Proof.
  unfold vector_set. intros H. case_decide; [|done].
  simplify_eq. apply length_insert.
Qed.

Lemma getBlock_is_Some (c : Chunk) (x y z : Z) :
  chunk_wf c → is_Some (getBlock c x y z).
Proof.
  intros Hwf%chunk_wf_length. unfold getBlock.
  destruct (isInBounds x y z) eqn:Hb; [|by eexists].
  apply vector_at_Some. apply getBlockIndex_range in Hb. lia.
Qed.

Lemma getBlock_out_of_bounds (c : Chunk) (x y z : Z) :
  isInBounds x y z = false → getBlock c x y z = Some Air.
Proof. intros H. unfold getBlock. by rewrite H. Qed.

Lemma setBlock_out_of_bounds (c : Chunk) (x y z : Z) (t : BlockType) :
  isInBounds x y z = false → setBlock c x y z t = Some c.
Proof. intros H. unfold setBlock. by rewrite H. Qed.

Lemma setBlock_in_bounds (c : Chunk) (x y z : Z) (t : BlockType) :
  chunk_wf c → isInBounds x y z = true →
  setBlock c x y z t =
    Some (set_meshDirty
            (set_blocks c (<[Z.to_nat (getBlockIndex x y z) := t]> (blocks c)))
            true).
Proof.
  intros Hwf%chunk_wf_length Hb. unfold setBlock, vector_set. rewrite Hb.
  apply getBlockIndex_range in Hb. by rewrite decide_True by lia.
Qed.

Lemma setBlock_is_Some (c : Chunk) (x y z : Z) (t : BlockType) :
  chunk_wf c → is_Some (setBlock c x y z t).
Proof.
  intros Hwf. destruct (isInBounds x y z) eqn:Hb.
  - rewrite setBlock_in_bounds by done. by eexists.
  - rewrite setBlock_out_of_bounds by done. by eexists.
Qed.

Lemma setBlock_wf (c c' : Chunk) (x y z : Z) (t : BlockType) :
  chunk_wf c → setBlock c x y z t = Some c' → chunk_wf c'.
Proof.
  intros Hwf. unfold setBlock. destruct (isInBounds x y z); [|congruence].
  destruct (vector_set _ _ _) as [b|] eqn:Hb; simpl; [|done].
  intros [= <-]. unfold chunk_wf in *. simpl.
  by rewrite (vector_set_length _ _ _ _ Hb).
Qed.

Lemma setBlock_coords (c c' : Chunk) (x y z : Z) (t : BlockType) :
  setBlock c x y z t = Some c' →
  chunkX c' = chunkX c ∧ chunkY c' = chunkY c ∧ chunkZ c' = chunkZ c.
Proof.
  unfold setBlock. destruct (isInBounds x y z); [|by intros [= <-]].
  destruct (vector_set _ _ _); simpl; [|done]. by intros [= <-].
Qed.

Lemma getBlock_setBlock_eq (c c' : Chunk) (x y z : Z) (t : BlockType) :
  isInBounds x y z = true →
  setBlock c x y z t = Some c' → getBlock c' x y z = Some t.
Proof.
  intros Hb. unfold setBlock, getBlock. rewrite Hb.
  destruct (vector_set _ _ _) as [b|] eqn:Hset; simpl; [|done].
  intros [= <-]. simpl. by eapply vector_at_set_eq.
Qed.

Lemma getBlock_setBlock_ne (c c' : Chunk) (x y z x' y' z' : Z) (t : BlockType) :
  (x, y, z) ≠ (x', y', z') →
  setBlock c x y z t = Some c' → getBlock c' x' y' z' = getBlock c x' y' z'.
Proof.
  intros Hne. unfold setBlock.
  destruct (isInBounds x y z) eqn:Hb; [|by intros [= <-]].
  destruct (vector_set _ _ _) as [b|] eqn:Hset; simpl; [|done].
  intros [= <-]. unfold getBlock. simpl.
  destruct (isInBounds x' y' z') eqn:Hb'; [|done].
  eapply vector_at_set_ne; [| |done].
  - apply getBlockIndex_range in Hb'. lia.
  - intros Heq. apply getBlockIndex_inj in Heq as (-> & -> & ->); done.
Qed.

Lemma newChunk_all_air (cx cy cz w x y z : Z) :
  getBlock (newChunk cx cy cz w) x y z = Some Air.
Proof.
  pose proof (newChunk_wf cx cy cz w) as Hwf.
  destruct (getBlock_is_Some (newChunk cx cy cz w) x y z Hwf) as [t Ht].
  rewrite Ht. f_equal. revert Ht. unfold getBlock.
  destruct (isInBounds x y z); [|congruence].
  unfold vector_at. case_decide; [|done]. unfold newChunk. cbn [blocks].
  intros Ht. apply lookup_replicate in Ht. tauto.
Qed.

(** C1: in a chunk whose storage has the constructed size, writing a block
    type [T] at an in-bounds local coordinate succeeds, and reading the same
    coordinate back from the resulting chunk returns [T]. *)
Theorem setBlock_getBlock_roundtrip (c : Chunk) (x y z : Z) (T : BlockType) :
  chunk_wf c → 0 ≤ x < 16 → 0 ≤ y < 256 → 0 ≤ z < 16 →
  ∃ c', setBlock c x y z T = Some c' ∧ getBlock c' x y z = Some T.
Proof.
  intros Hwf Hx Hy Hz.
  assert (isInBounds x y z = true) as Hb by (by apply isInBounds_true).
  destruct (setBlock_is_Some c x y z T Hwf) as [c' Hc'].
  exists c'. split; [done|]. by eapply getBlock_setBlock_eq.
Qed.

Lemma setBlock_getBlock_roundtrip_witness :
  ∃ c', setBlock (newChunk 0 0 0 0) 3 70 9 Grass = Some c' ∧
        getBlock c' 3 70 9 = Some Grass.
Proof.
  apply (setBlock_getBlock_roundtrip (newChunk 0 0 0 0) 3 70 9 Grass).
  - apply newChunk_wf.
  - lia.
  - lia.
  - lia.
Defined.

(** C2: at a local coordinate with a component outside
    [0,16) x [0,256) x [0,16), [getBlock] is defined and returns air, and
    [setBlock] is defined and returns the chunk it was given: storage, dirty
    flag and every other field are as before.  This holds for every chunk
    state and every block type. *)
Theorem out_of_bounds_access (c : Chunk) (x y z : Z) (T : BlockType) :
  ¬ (0 ≤ x < 16 ∧ 0 ≤ y < 256 ∧ 0 ≤ z < 16) →
  getBlock c x y z = Some Air ∧
  setBlock c x y z T = Some c.
Proof.
  intros Hb%isInBounds_false. split.
  - by apply getBlock_out_of_bounds.
  - by apply setBlock_out_of_bounds.
Qed.

Lemma out_of_bounds_access_witness :
  getBlock (newChunk 2 0 (-5) 0) 16 300 (-1) = Some Air ∧
  setBlock (newChunk 2 0 (-5) 0) 16 300 (-1) Stone = Some (newChunk 2 0 (-5) 0).
Proof.
  apply (out_of_bounds_access (newChunk 2 0 (-5) 0) 16 300 (-1) Stone). lia.
Defined.

(** ** The two index functions agree *)

Lemma wrap_int_mod (a : Z) : wrap_int a mod 2 ^ 32 = a mod 2 ^ 32.
Proof.
  unfold wrap_int. rewrite Zminus_mod_idemp_l. f_equal. lia.
Qed.

Lemma wrap_int_congr (a b : Z) :
  a mod 2 ^ 32 = b mod 2 ^ 32 → wrap_int a = wrap_int b.
Proof.
  intros H. unfold wrap_int. f_equal.
  rewrite (Z.add_mod a), (Z.add_mod b) by lia. by rewrite H.
Qed.

Lemma wrap_int_mod_congr (a a' : Z) :
  a mod 2 ^ 32 = a' mod 2 ^ 32 → wrap_int a mod 2 ^ 32 = a' mod 2 ^ 32.
Proof. intros <-. apply wrap_int_mod. Qed.

Lemma add_mod_congr (a a' b b' : Z) :
  a mod 2 ^ 32 = a' mod 2 ^ 32 → b mod 2 ^ 32 = b' mod 2 ^ 32 →
  (a + b) mod 2 ^ 32 = (a' + b') mod 2 ^ 32.
Proof.
  intros Ha Hb. rewrite (Z.add_mod a), (Z.add_mod a') by lia.
  by rewrite Ha, Hb.
Qed.

Lemma mul_mod_congr (a a' b b' : Z) :
  a mod 2 ^ 32 = a' mod 2 ^ 32 → b mod 2 ^ 32 = b' mod 2 ^ 32 →
  (a * b) mod 2 ^ 32 = (a' * b') mod 2 ^ 32.
Proof.
  intros Ha Hb. rewrite (Z.mul_mod a), (Z.mul_mod a') by lia.
  by rewrite Ha, Hb.
Qed.

(** Strips every [wrap_int] inside a residue modulo [2^32]. *)
Ltac unwrap_mod :=
  repeat first
    [ apply wrap_int_mod_congr
    | apply add_mod_congr
    | apply mul_mod_congr
    | reflexivity ].

Lemma GetIndex_getBlockIndex (x y z : Z) :
  ChunkH.GetIndex x y z = getBlockIndex x y z.
Proof.
  unfold ChunkH.GetIndex, getBlockIndex, int_add, int_mul.
  unfold ChunkH.CHUNK_SIZE_X, ChunkH.CHUNK_SIZE_Z, CHUNK_SIZE.
  apply wrap_int_congr.
  etrans; [unwrap_mod|]. symmetry. etrans; [unwrap_mod|].
  f_equal. lia.
Qed.

(** C8: on the cube [0,16) x [0,256) x [0,16) the index of [chunk.cpp] is
    [y*(16*16) + z*16 + x] and lies in [0, 65536); the header's [GetIndex]
    is the same function (on every [int] input); the index is injective on
    the cube; and every index in [0, 65536) is the index of exactly one
    coordinate of the cube. *)
Theorem index_bijection :
  (∀ x y z, 0 ≤ x < 16 → 0 ≤ y < 256 → 0 ≤ z < 16 →
     getBlockIndex x y z = y * (16 * 16) + z * 16 + x ∧
     0 ≤ getBlockIndex x y z < 65536) ∧
  (∀ x y z, ChunkH.GetIndex x y z = getBlockIndex x y z) ∧
  (∀ x1 y1 z1 x2 y2 z2,
     0 ≤ x1 < 16 → 0 ≤ y1 < 256 → 0 ≤ z1 < 16 →
     0 ≤ x2 < 16 → 0 ≤ y2 < 256 → 0 ≤ z2 < 16 →
     getBlockIndex x1 y1 z1 = getBlockIndex x2 y2 z2 →
     (x1, y1, z1) = (x2, y2, z2)) ∧
  (∀ i, 0 ≤ i < 65536 →
     ∃ x y z, (0 ≤ x < 16 ∧ 0 ≤ y < 256 ∧ 0 ≤ z < 16) ∧
       getBlockIndex x y z = i ∧
       ∀ x' y' z', 0 ≤ x' < 16 → 0 ≤ y' < 256 → 0 ≤ z' < 16 →
         getBlockIndex x' y' z' = i → (x', y', z') = (x, y, z)).
Proof.
  split; [|split; [|split]].
  - intros x y z Hx Hy Hz. rewrite getBlockIndex_small by done. lia.
  - apply GetIndex_getBlockIndex.
  - intros x1 y1 z1 x2 y2 z2 Hx1 Hy1 Hz1 Hx2 Hy2 Hz2.
    rewrite !getBlockIndex_small by done. intros Heq.
    assert (x1 = x2 ∧ y1 = y2 ∧ z1 = z2) as (-> & -> & ->) by lia. done.
  - intros i Hi.
    exists (i mod 16), (i / 256), ((i / 16) mod 16).
    pose proof (Z.mod_pos_bound i 16 ltac:(lia)) as Hx.
    pose proof (Z.mod_pos_bound (i / 16) 16 ltac:(lia)) as Hz.
    assert (0 ≤ i / 256 < 256) as Hy.
    { split; [apply Z.div_pos; lia | apply Z.div_lt_upper_bound; lia]. }
    assert (i = i / 256 * 256 + (i / 16) mod 16 * 16 + i mod 16) as Hdec.
    { pose proof (Z.div_mod i 16 ltac:(lia)) as H1.
      pose proof (Z.div_mod (i / 16) 16 ltac:(lia)) as H2.
      rewrite Z.div_div in H2 by lia. change (16 * 16) with 256 in H2. lia. }
    split; [done|]. split.
    + rewrite getBlockIndex_small by done. lia.
    + intros x' y' z' Hx' Hy' Hz'. rewrite getBlockIndex_small by done.
      intros Heq.
      assert (x' = i mod 16 ∧ y' = i / 256 ∧ z' = (i / 16) mod 16)
        as (-> & -> & ->) by lia.
      done.
Qed.

(** ** Terrain *)

Lemma clamp_bounds (v lo hi : Z) : lo ≤ hi → lo ≤ clamp v lo hi ≤ hi.
Proof.
  intros H. unfold clamp.
  destruct (Z.ltb_spec v lo); [lia|]. destruct (Z.ltb_spec hi v); lia.
Qed.

Section Terrain.
Context {F : FloatOps}.

Lemma generateHeight_bounds (c : Chunk) (x z : float) :
  1 ≤ generateHeight c x z ≤ 255.
Proof.
  unfold generateHeight. cbv zeta.
  replace (int_sub CHUNK_HEIGHT 1) with 255 by done.
  by apply clamp_bounds.
Qed.

(** C7: the terrain height depends on nothing but its two arguments - any
    two evaluations on the same [(x, z)], also from chunks in different
    states, return the same integer - and that integer lies in
    [[1, CHUNK_HEIGHT - 1]], that is in [[1, 255]]. *)
Theorem generateHeight_deterministic_bounded (c1 c2 : Chunk) (x z : float) :
  generateHeight c1 x z = generateHeight c2 x z ∧
  1 ≤ generateHeight c1 x z ≤ CHUNK_HEIGHT - 1.
Proof.
  split; [reflexivity|]. apply generateHeight_bounds.
Qed.

Lemma columnBlock_layers (h y : Z) :
  1 ≤ h ≤ 255 →
  (y < h - 3 → columnBlock h y = Stone) ∧
  (h - 3 ≤ y < h → columnBlock h y = Dirt) ∧
  (y = h → columnBlock h y = Grass) ∧
  (h < y → columnBlock h y = Air).
Proof.
  intros Hh. unfold columnBlock. int_small.
  destruct (Z.ltb_spec y (h - 3)); [repeat split; (done || lia)|].
  destruct (Z.ltb_spec y h); [repeat split; (done || lia)|].
  destruct (Z.eqb_spec y h); repeat split; (done || lia).
Qed.

Section Fill.
Variable c0 : Chunk.

Lemma fills_weaken (op : Chunk → option Chunk) (R R' : Z → Z → Z → Prop) :
  (∀ x y z, isInBounds x y z = true → R' x y z → R x y z) →
  fills c0 op R → fills c0 op R'.
Proof.
  intros HR Hop c Hwf Hx Hz.
  destruct (Hop c Hwf Hx Hz) as (c' & Hc' & Hwf' & Hx' & Hz' & Hget).
  exists c'. repeat split; try done.
  - intros HR'. apply Hget; auto.
  - by apply Hget.
Qed.

Lemma fills_setBlock (x y z : Z) :
  isInBounds x y z = true →
  fills c0 (λ c, setBlock c x y z (terrainBlock c0 x y z))
        (λ x' y' z', (x', y', z') = (x, y, z)).
Proof.
  intros Hb c Hwf Hx Hz.
  destruct (setBlock_is_Some c x y z (terrainBlock c0 x y z) Hwf) as [c' Hc'].
  pose proof (setBlock_coords _ _ _ _ _ _ Hc') as (Hx' & _ & Hz').
  exists c'. repeat split; try done; try congruence.
  - by eapply setBlock_wf.
  - intros [= -> -> ->]. by eapply getBlock_setBlock_eq.
  - destruct (decide ((x, y, z) = (x0, y0, z0))) as [[= <- <- <-]|Hne].
    + left. by eapply getBlock_setBlock_eq.
    + right. by eapply getBlock_setBlock_ne.
Qed.

Lemma fills_for_each {A} (l : list A) (body : A → Chunk → option Chunk)
    (R : A → Z → Z → Z → Prop) :
  (∀ a, a ∈ l → fills c0 (body a) (R a)) →
  fills c0 (for_each l body) (λ x y z, ∃ a, a ∈ l ∧ R a x y z).
Proof.
  induction l as [|a l IH]; intros Hbody c Hwf Hx Hz.
  - exists c. repeat split; try done.
    + intros (a & Ha & _). by apply elem_of_nil in Ha.
    + by right.
  - destruct (Hbody a ltac:(left) c Hwf Hx Hz)
      as (c1 & Hc1 & Hwf1 & Hx1 & Hz1 & Hget1).
    destruct (IH ltac:(intros a' Ha'; apply Hbody; by right) c1 Hwf1 Hx1 Hz1)
      as (c' & Hc' & Hwf' & Hx' & Hz' & Hget').
    exists c'. simpl. rewrite Hc1. repeat split; try done.
    + intros (a' & Ha' & HR).
      destruct (Hget' x y z H) as [Hin Hframe].
      apply elem_of_cons in Ha' as [->|Ha'].
      * destruct Hframe as [?| ->]; [done|]. by apply Hget1.
      * apply Hin. eauto.
    + destruct (Hget' x y z H) as [_ [?| ->]]; [by left|]. by apply Hget1.
Qed.

Lemma fills_for_range (n : Z) (body : Z → Chunk → option Chunk)
    (R : Z → Z → Z → Z → Prop) :
  (∀ i, 0 ≤ i < n → fills c0 (body i) (R i)) →
  fills c0 (for_range n body) (λ x y z, ∃ i, 0 ≤ i < n ∧ R i x y z).
Proof.
  intros Hbody. unfold for_range.
  eapply fills_weaken; [|apply (fills_for_each _ body R)].
  - intros x y z _ (i & Hi & HR). exists i. split; [|done].
    apply elem_of_seqZ. lia.
  - intros i Hi%elem_of_seqZ. apply Hbody. lia.
Qed.

Lemma fills_column (x z : Z) :
  0 ≤ x < 16 → 0 ≤ z < 16 →
  fills c0
    (λ c,
       let worldX := worldCoord (chunkX c) x in
       let worldZ := worldCoord (chunkZ c) z in
       let height := generateHeight c worldX worldZ in
       for_range CHUNK_HEIGHT (λ y c, setBlock c x y z (columnBlock height y)) c)
    (λ x' y' z', x' = x ∧ z' = z).
Proof.
  intros Hx Hz c Hwf Hcx Hcz. cbv zeta. rewrite Hcx, Hcz.
  change (generateHeight c (worldCoord (chunkX c0) x) (worldCoord (chunkZ c0) z))
    with (terrainHeight c0 x z).
  revert c Hwf Hcx Hcz.
  change (fills c0
    (for_range CHUNK_HEIGHT (λ y c, setBlock c x y z (terrainBlock c0 x y z)))
    (λ x' y' z', x' = x ∧ z' = z)).
  eapply fills_weaken; [|apply fills_for_range
    with (R := λ y x' y' z', (x', y', z') = (x, y, z))].
  - intros x' y' z' Hb [-> ->]. exists y'. split; [|done].
    apply isInBounds_true in Hb. unfold CHUNK_HEIGHT. lia.
  - intros y Hy. apply fills_setBlock. apply isInBounds_true.
    unfold CHUNK_HEIGHT in Hy. lia.
Qed.

Lemma fills_generate_loops :
  fills c0
    (for_range CHUNK_SIZE (λ x c,
       for_range CHUNK_SIZE (λ z c,
         let worldX := worldCoord (chunkX c) x in
         let worldZ := worldCoord (chunkZ c) z in
         let height := generateHeight c worldX worldZ in
         for_range CHUNK_HEIGHT (λ y c,
           setBlock c x y z (columnBlock height y)) c) c))
    (λ _ _ _, True).
Proof.
  eapply fills_weaken; [|apply fills_for_range
    with (R := λ x x' y' z', x' = x)].
  - intros x y z Hb _. exists x. split; [|done].
    apply isInBounds_true in Hb. unfold CHUNK_SIZE. lia.
  - intros x Hx. unfold CHUNK_SIZE in Hx.
    eapply fills_weaken; [|apply fills_for_range
      with (R := λ z x' y' z', x' = x ∧ z' = z)].
    + intros x' y' z' Hb ->. exists z'. split; [|done].
      apply isInBounds_true in Hb. unfold CHUNK_SIZE. lia.
    + intros z Hz. unfold CHUNK_SIZE in Hz. by apply fills_column.
Qed.

End Fill.

Lemma generate_spec (c : Chunk) :
  chunk_wf c →
  ∃ c', generate c = Some c' ∧ chunk_wf c' ∧ meshDirty c' = true ∧
    ∀ x y z, isInBounds x y z = true →
      getBlock c' x y z = Some (terrainBlock c x y z).
Proof.
  intros Hwf.
  destruct (fills_generate_loops c c Hwf eq_refl eq_refl)
    as (c' & Hc' & Hwf' & _ & _ & Hget).
  exists (set_meshDirty c' true). cbv zeta in Hc'.
  unfold generate. rewrite Hc'. simpl.
  repeat split; try done.
  intros x y z Hb. by apply (Hget x y z Hb).
Qed.

(** C3: on a chunk whose storage has the constructed size, [generate]
    completes, and in the chunk it leaves, for every column [(x, z)] with
    [h] the height computed for that column's world position: every cell
    with [y < h - 3] holds stone, every cell with [h - 3 <= y < h] holds
    dirt, the cell [y = h] holds grass and every cell with [y > h] holds
    air.  [h] ranges over [[1, 255]], so this covers [h - 3 <= 0] and
    [h = CHUNK_HEIGHT - 1]. *)
Theorem generate_layers (c : Chunk) :
  chunk_wf c →
  ∃ c', generate c = Some c' ∧
    ∀ x z, 0 ≤ x < 16 → 0 ≤ z < 16 →
      let h := generateHeight c (worldCoord (chunkX c) x)
                                (worldCoord (chunkZ c) z) in
      1 ≤ h ≤ CHUNK_HEIGHT - 1 ∧
      ∀ y, 0 ≤ y < 256 →
        (y < h - 3 → getBlock c' x y z = Some Stone) ∧
        (h - 3 ≤ y < h → getBlock c' x y z = Some Dirt) ∧
        (y = h → getBlock c' x y z = Some Grass) ∧
        (h < y → getBlock c' x y z = Some Air).
Proof.
  intros Hwf. destruct (generate_spec c Hwf) as (c' & Hc' & _ & _ & Hget).
  exists c'. split; [done|]. intros x z Hx Hz h.
  pose proof (generateHeight_bounds c (worldCoord (chunkX c) x)
                (worldCoord (chunkZ c) z)) as Hh.
  fold h in Hh. split; [unfold CHUNK_HEIGHT; lia|]. intros y Hy.
  rewrite (Hget x y z) by (by apply isInBounds_true).
  unfold terrainBlock, terrainHeight. fold h.
  destruct (columnBlock_layers h y Hh) as (H1 & H2 & H3 & H4).
  repeat split; intros; f_equal; auto.
Qed.

End Terrain.

(** ** The chunk key *)

Lemma chunkKey_sum (x z : Z) : chunkKey x z = x * 65536 + z mod 65536.
Proof.
  unfold chunkKey. change 65535 with (Z.ones 16).
  rewrite Z.land_ones, Z.shiftl_mul_pow2 by lia.
  change (2 ^ 16) with 65536.
  assert (Z.land (x * 65536) (z mod 65536) = 0) as Hdisj.
  { apply Z.bits_inj'. intros n Hn. rewrite Z.land_spec, Z.bits_0.
    destruct (Z.lt_ge_cases n 16) as [Hlt|Hge].
    - change 65536 with (2 ^ 16). rewrite Z.mul_pow2_bits_low by done. done.
    - change 65536 with (2 ^ 16) at 2.
      rewrite Z.mod_pow2_bits_high by lia. apply andb_false_r. }
  rewrite <- Z.lxor_lor by done. symmetry. by apply Z.add_nocarry_lxor.
Qed.

Lemma chunkKey_eq_iff (x1 z1 x2 z2 : Z) :
  chunkKey x1 z1 = chunkKey x2 z2 ↔ x1 = x2 ∧ z1 mod 65536 = z2 mod 65536.
Proof.
  rewrite !chunkKey_sum.
  pose proof (Z.mod_pos_bound z1 65536 ltac:(lia)).
  pose proof (Z.mod_pos_bound z2 65536 ltac:(lia)).
  lia.
Qed.

(** C6, as amended: two coordinate pairs get the same key exactly when their
    [chunkX] are equal and their [chunkZ] agree modulo [2^16]; so the key is
    injective on the pairs whose [chunkZ] fits the signed 16-bit field,
    [-32768 <= chunkZ <= 32767], whatever [chunkX] is. *)
Theorem chunkKey_injective_16bit (x1 z1 x2 z2 : Z) :
  -32768 ≤ z1 ≤ 32767 → -32768 ≤ z2 ≤ 32767 →
  (x1, z1) ≠ (x2, z2) →
  chunkKey x1 z1 ≠ chunkKey x2 z2.
Proof.
  intros Hz1 Hz2 Hne Heq. apply chunkKey_eq_iff in Heq as [-> Hmod].
  apply Hne. f_equal.
  pose proof (Z.div_mod z1 65536 ltac:(lia)).
  pose proof (Z.div_mod z2 65536 ltac:(lia)).
  lia.
Qed.

Lemma chunkKey_injective_16bit_witness :
  chunkKey 3 (-1) ≠ chunkKey 3 1 ∧ chunkKey (-70000) (-32768) ≠ chunkKey 70000 32767.
Proof.
  split.
  - apply (chunkKey_injective_16bit 3 (-1) 3 1); [lia | lia | congruence].
  - apply (chunkKey_injective_16bit (-70000) (-32768) 70000 32767);
      [lia | lia | congruence].
Defined.

(** C6 fails over the range of [int]: chunk columns [2^16] apart in Z share
    a key, and a negative [chunkZ] shares its key with a positive one. *)
Lemma chunkKey_collision :
  (0, 0) ≠ (0, 65536) ∧ chunkKey 0 0 = chunkKey 0 65536 ∧
  (0, -1) ≠ (0, 65535) ∧ chunkKey 0 (-1) = chunkKey 0 65535.
Proof. repeat split; (congruence || reflexivity). Qed.

(** ** Sums *)

Lemma sumZ_zero {A} (f : A → Z) (l : list A) :
  (∀ a, a ∈ l → f a = 0) → sumZ f l = 0.
Proof.
  induction l as [|a l IH]; intros Hf; simpl; [done|].
  rewrite Hf by left. rewrite IH; [done|]. intros b Hb. apply Hf. by right.
Qed.

Lemma sumZ_unique {A} (f : A → Z) (l : list A) (a : A) :
  NoDup l → a ∈ l → (∀ b, b ∈ l → b ≠ a → f b = 0) → sumZ f l = f a.
Proof.
  induction l as [|b l IH]; intros Hnd Ha Hf; [by apply elem_of_nil in Ha|].
  apply NoDup_cons in Hnd as [Hb Hnd]. simpl.
  apply elem_of_cons in Ha as [->|Ha].
  - rewrite sumZ_zero; [lia|]. intros b' Hb'. apply Hf; [by right|].
    intros ->. done.
  - rewrite (Hf b) by (by left || by intros ->).
    rewrite IH; [lia|done|done|]. intros b' Hb'. apply Hf. by right.
Qed.

Lemma sumZ_range_unique (f : Z → Z) (n i : Z) :
  0 ≤ i < n → (∀ j, 0 ≤ j < n → j ≠ i → f j = 0) → sumZ f (seqZ 0 n) = f i.
Proof.
  intros Hi Hf. apply sumZ_unique.
  - apply NoDup_seqZ.
  - apply elem_of_seqZ. lia.
  - intros j Hj%elem_of_seqZ. apply Hf. lia.
Qed.

Lemma sumZ_range_zero (f : Z → Z) (n : Z) :
  (∀ j, 0 ≤ j < n → f j = 0) → sumZ f (seqZ 0 n) = 0.
Proof. intros Hf. apply sumZ_zero. intros j Hj%elem_of_seqZ. apply Hf. lia. Qed.

(** A loop whose every round extends the state by a known amount extends it
    by the sum of the amounts. *)
Lemma for_each_sum {S A} (R : S → S → Z → Prop) (k : A → Z) (l : list A)
    (body : A → S → option S) :
  (∀ s, R s s 0) →
  (∀ s1 s2 s3 a b, R s1 s2 a → R s2 s3 b → R s1 s3 (a + b)) →
  (∀ a s, a ∈ l → ∃ s', body a s = Some s' ∧ R s s' (k a)) →
  ∀ s, ∃ s', for_each l body s = Some s' ∧ R s s' (sumZ k l).
Proof.
  intros Hrefl Htrans. induction l as [|a l IH]; intros Hbody s; simpl.
  - by exists s.
  - destruct (Hbody a s ltac:(left)) as (s1 & -> & HR1).
    destruct (IH ltac:(intros a' s' Ha'; apply Hbody; by right) s1)
      as (s' & -> & HR').
    exists s'. split; [done|]. by eapply Htrans.
Qed.

(** ** Meshing *)

Section Meshing.
Context {F : FloatOps}.

Lemma meshGrows_refl (m : Mesh) : meshGrows m m 0.
Proof. unfold meshGrows. lia. Qed.

Lemma meshGrows_trans (m1 m2 m3 : Mesh) (a b : Z) :
  meshGrows m1 m2 a → meshGrows m2 m3 b → meshGrows m1 m3 (a + b).
Proof. unfold meshGrows. lia. Qed.

Lemma faceVertices_length (x y z face : Z) (texX texY : float) :
  0 ≤ face < 6 → length (faceVertices x y z face texX texY) = 32%nat.
Proof.
  intros Hf.
  assert (face = 0 ∨ face = 1 ∨ face = 2 ∨ face = 3 ∨ face = 4 ∨ face = 5)
    as [->|[->|[->|[->|[->| ->]]]]] by lia; reflexivity.
Qed.

Lemma addFace_grows (c : Chunk) (x y z face : Z) (bt : BlockType) (m : Mesh) :
  0 ≤ face < 6 → meshGrows m (addFace c x y z face bt m) 1.
Proof.
  intros Hf. destruct m as [vs ids]. unfold meshGrows, addFace. cbn [fst snd].
  rewrite !length_app, faceVertices_length by done. simpl length. lia.
Qed.

Lemma addFaceIfExposed_spec (c : Chunk) (x y z : Z) (bt : BlockType)
    (face : Z) (m : Mesh) :
  chunk_wf c →
  addFaceIfExposed c x y z bt face m =
    Some (if neighborIsAir c x y z face then addFace c x y z face bt m else m).
Proof.
  intros Hwf. unfold addFaceIfExposed, neighborIsAir.
  destruct (faceNeighbor x y z face) as [[nx ny] nz].
  destruct (getBlock_is_Some c nx ny nz Hwf) as [t ->]. simpl.
  case_decide as Ht.
  - rewrite bool_decide_eq_false_2; [done|]. congruence.
  - rewrite bool_decide_eq_true_2; [done|].
    f_equal. by destruct (decide (t = Air)).
Qed.

Lemma exposed_step (c : Chunk) (x y z face : Z) (bt : BlockType)
    (m0 m : Mesh) (n : Z) :
  0 ≤ face < 6 → meshGrows m0 m n →
  meshGrows m0
    (if neighborIsAir c x y z face then addFace c x y z face bt m else m)
    (n + (if neighborIsAir c x y z face then 1 else 0)).
Proof.
  intros Hf Hm. destruct (neighborIsAir c x y z face).
  - eapply meshGrows_trans; [done|]. by apply addFace_grows.
  - by rewrite Z.add_0_r.
Qed.

Lemma blockFaces_air (c : Chunk) (x y z : Z) :
  getBlock c x y z = Some Air → blockFaces c x y z = 0.
Proof. intros H. unfold blockFaces. by rewrite decide_True. Qed.

Lemma blockFaces_solid (c : Chunk) (x y z : Z) :
  getBlock c x y z ≠ Some Air →
  blockFaces c x y z =
    0 + (if neighborIsAir c x y z 0 then 1 else 0)
      + (if neighborIsAir c x y z 1 then 1 else 0)
      + (if neighborIsAir c x y z 2 then 1 else 0)
      + (if neighborIsAir c x y z 3 then 1 else 0)
      + (if neighborIsAir c x y z 4 then 1 else 0)
      + (if neighborIsAir c x y z 5 then 1 else 0).
Proof.
  intros H. unfold blockFaces. rewrite decide_False by done.
  change (seqZ 0 6) with [0; 1; 2; 3; 4; 5]. cbn [sumZ foldr]. lia.
Qed.

Lemma meshBlock_grows (c : Chunk) (x y z : Z) (m : Mesh) :
  chunk_wf c →
  ∃ m', meshBlock c x y z m = Some m' ∧ meshGrows m m' (blockFaces c x y z).
Proof.
  intros Hwf. unfold meshBlock.
  destruct (getBlock_is_Some c x y z Hwf) as [bt Hbt]. rewrite Hbt.
  cbn [mbind option_bind].
  destruct (decide (bt = Air)) as [->|Hne].
  - rewrite blockFaces_air by done. exists m. split; [done|apply meshGrows_refl].
  - rewrite blockFaces_solid by congruence.
    repeat (rewrite addFaceIfExposed_spec by done; cbn [mbind option_bind]).
    eexists. split; [done|].
    repeat (apply exposed_step; [lia|]). apply meshGrows_refl.
Qed.

Lemma meshLoops_grows (c : Chunk) :
  chunk_wf c →
  ∃ m, meshLoops c = Some m ∧ meshGrows ([], []) m (chunkFaces c).
Proof.
  intros Hwf. unfold meshLoops, chunkFaces, for_range.
  apply for_each_sum with (R := meshGrows);
    [apply meshGrows_refl | apply meshGrows_trans |].
  intros x m _.
  apply for_each_sum with (R := meshGrows);
    [apply meshGrows_refl | apply meshGrows_trans |].
  intros y m' _.
  apply for_each_sum with (R := meshGrows);
    [apply meshGrows_refl | apply meshGrows_trans |].
  intros z m'' _. by apply meshBlock_grows.
Qed.

End Meshing.

(** ** Building and uploading the mesh *)

Section Building.
Context {F : FloatOps}.

Lemma uploadMesh_chunk (c : Chunk) (g : GLState) (m : Mesh) :
  fst (uploadMesh c g m) =
    {| chunkX := chunkX c; chunkY := chunkY c; chunkZ := chunkZ c;
       world := world c; blocks := blocks c;
       meshDirty := false; meshBuilt := true;
       vao := if meshBuilt c then vao c else gl_vertex_arrays g + 1;
       vbo := if meshBuilt c then vbo c else gl_buffers g + 1;
       ebo := if meshBuilt c then ebo c else gl_buffers g + 1 + 1;
       vertexCount := Z.of_nat (length (fst m)) / 8;
       indexCount := Z.of_nat (length (snd m)) |}.
Proof.
  destruct m as [vs ids]. unfold uploadMesh.
  destruct (meshBuilt c); reflexivity.
Qed.

(** Evaluates the OpenGL calls of [uploadMesh] on a state given by its
    fields. *)
Ltac gl_eval :=
  cbv beta iota zeta delta
    [uploadMesh glGenVertexArrays glGenBuffers glBindVertexArray glBindBuffer
     glBufferData glVertexAttribPointer glEnableVertexAttribArray boundBuffer
     uploaded gl_vertex_arrays gl_buffers gl_bound_vertex_array
     gl_bound_array_buffer gl_bound_element_buffer gl_buffer_data
     gl_attrib_pointers gl_attrib_enabled fst snd negb].

Lemma uploadMesh_names (c : Chunk) (g : GLState) (m : Mesh) :
  gl_vertex_arrays (snd (uploadMesh c g m)) =
    (if meshBuilt c then gl_vertex_arrays g else gl_vertex_arrays g + 1) ∧
  gl_buffers (snd (uploadMesh c g m)) =
    (if meshBuilt c then gl_buffers g else gl_buffers g + 1 + 1).
Proof.
  destruct m as [vs ids], g as [va bu bva bab beb data ptrs en].
  destruct (meshBuilt c) eqn:Hb; gl_eval; rewrite Hb; gl_eval;
    repeat match goal with |- context [?n =? 0] => destruct (n =? 0) end;
    done.
Qed.

Lemma uploadMesh_data (c : Chunk) (g : GLState) (m : Mesh) :
  let c' := fst (uploadMesh c g m) in
  let g' := snd (uploadMesh c g m) in
  vbo c' ≠ 0 → ebo c' ≠ 0 → vbo c' ≠ ebo c' →
  uploaded g' (vbo c') = Some (FloatData (fst m)) ∧
  uploaded g' (ebo c') = Some (UIntData (snd m)).
Proof.
  intros c' g'. subst c' g'. rewrite uploadMesh_chunk. cbn [vbo ebo].
  destruct m as [vs ids], g as [va bu bva bab beb data ptrs en].
  destruct (meshBuilt c) eqn:Hb; intros Hv He Hne; gl_eval; rewrite Hb; gl_eval;
    repeat match goal with
      | |- context [?n =? 0] =>
          rewrite (proj2 (Z.eqb_neq n 0)) by done; gl_eval
      end;
    (split; [rewrite lookup_insert_ne by done|]; by rewrite lookup_insert_eq).
Qed.

Lemma rebuildMesh_spec (c : Chunk) (g : GLState) :
  chunk_wf c →
  ∃ m, meshLoops c = Some m ∧ meshGrows ([], []) m (chunkFaces c) ∧
       rebuildMesh c g = Some (uploadMesh c g m).
Proof.
  intros Hwf. destruct (meshLoops_grows c Hwf) as (m & Hm & Hgrow).
  exists m. repeat split; try done; try apply Hgrow.
  unfold rebuildMesh. by rewrite Hm.
Qed.

Lemma rebuildMesh_counts (c : Chunk) (g : GLState) :
  chunk_wf c →
  ∃ c' g', rebuildMesh c g = Some (c', g') ∧
    blocks c' = blocks c ∧ meshDirty c' = false ∧ meshBuilt c' = true ∧
    vertexCount c' = 4 * chunkFaces c ∧ indexCount c' = 6 * chunkFaces c.
Proof.
  intros Hwf. destruct (rebuildMesh_spec c g Hwf) as (m & _ & [Hv Hi] & ->).
  exists (fst (uploadMesh c g m)), (snd (uploadMesh c g m)).
  split; [by destruct (uploadMesh c g m)|].
  rewrite uploadMesh_chunk. cbn [blocks meshDirty meshBuilt vertexCount indexCount].
  split; [done|]. split; [done|]. split; [done|]. split.
  - rewrite Hv. cbn [fst length].
    replace (Z.of_nat 0 + 32 * chunkFaces c) with (4 * chunkFaces c * 8) by lia.
    by rewrite Z.div_mul.
  - rewrite Hi. cbn [snd length]. lia.
Qed.

Lemma buildMesh_clean (c : Chunk) (g : GLState) :
  meshDirty c = false → meshBuilt c = true → buildMesh c g = Some (c, g).
Proof. intros Hd Hb. unfold buildMesh. by rewrite Hd, Hb. Qed.

Lemma buildMesh_stale (c : Chunk) (g : GLState) :
  meshDirty c = true ∨ meshBuilt c = false → buildMesh c g = rebuildMesh c g.
Proof.
  intros H. unfold buildMesh.
  destruct H as [-> | ->]; [done|]. by rewrite andb_false_r.
Qed.

(** What a call of [buildMesh] leaves behind. *)
Lemma buildMesh_spec (c : Chunk) (g : GLState) :
  chunk_wf c →
  ∃ c' g', buildMesh c g = Some (c', g') ∧
    blocks c' = blocks c ∧ meshDirty c' = false ∧ meshBuilt c' = true ∧
    (meshBuilt c = true →
       gl_vertex_arrays g' = gl_vertex_arrays g ∧
       gl_buffers g' = gl_buffers g ∧
       vao c' = vao c ∧ vbo c' = vbo c ∧ ebo c' = ebo c) ∧
    (meshBuilt c = false →
       gl_vertex_arrays g' = gl_vertex_arrays g + 1 ∧
       gl_buffers g' = gl_buffers g + 2 ∧
       vao c' = gl_vertex_arrays g + 1 ∧
       vbo c' = gl_buffers g + 1 ∧ ebo c' = gl_buffers g + 2).
Proof.
  intros Hwf. unfold buildMesh.
  destruct (negb (meshDirty c) && meshBuilt c) eqn:Hguard.
  - apply andb_true_iff in Hguard as [Hd%negb_true_iff Hb].
    exists c, g. rewrite Hb. repeat split; done.
  - destruct (rebuildMesh_spec c g Hwf) as (m & _ & _ & ->).
    exists (fst (uploadMesh c g m)), (snd (uploadMesh c g m)).
    split; [by destruct (uploadMesh c g m)|].
    destruct (uploadMesh_names c g m) as [Hva Hbuf].
    rewrite uploadMesh_chunk, Hva, Hbuf.
    cbn [blocks meshDirty meshBuilt vao vbo ebo].
    split; [done|]. split; [done|]. split; [done|].
    split; intros ->; repeat split; lia.
Qed.

End Building.

Section Claims.
Context {F : FloatOps}.

(** C5: on a chunk whose storage has the constructed size, [buildMesh]
    completes and leaves [meshDirty = false] and [meshBuilt = true]; when
    the chunk was neither dirty nor unbuilt the call changes neither the
    chunk nor the OpenGL state, otherwise it runs the rebuild; object names
    are generated only when the chunk had never been built (one vertex
    array, two buffers), and a rebuild of a built chunk keeps its three
    handles; and a second call directly after the first returns the same
    chunk and the same OpenGL state, so the uploaded vertex and index
    buffers are identical and nothing new is generated. *)
Theorem buildMesh_idempotent (c : Chunk) (g : GLState) :
  chunk_wf c →
  ∃ c' g', buildMesh c g = Some (c', g') ∧
    meshDirty c' = false ∧ meshBuilt c' = true ∧
    (meshDirty c = false → meshBuilt c = true → c' = c ∧ g' = g) ∧
    (meshDirty c = true ∨ meshBuilt c = false →
       buildMesh c g = rebuildMesh c g) ∧
    (meshBuilt c = true →
       gl_vertex_arrays g' = gl_vertex_arrays g ∧
       gl_buffers g' = gl_buffers g ∧
       vao c' = vao c ∧ vbo c' = vbo c ∧ ebo c' = ebo c) ∧
    (meshBuilt c = false →
       gl_vertex_arrays g' = gl_vertex_arrays g + 1 ∧
       gl_buffers g' = gl_buffers g + 2) ∧
    buildMesh c' g' = Some (c', g') ∧
    (∀ c'' g'', buildMesh c' g' = Some (c'', g'') →
       uploaded g'' (vbo c'') = uploaded g' (vbo c') ∧
       uploaded g'' (ebo c'') = uploaded g' (ebo c') ∧
       vertexCount c'' = vertexCount c' ∧ indexCount c'' = indexCount c' ∧
       gl_vertex_arrays g'' = gl_vertex_arrays g' ∧
       gl_buffers g'' = gl_buffers g').
Proof.
  intros Hwf.
  destruct (buildMesh_spec c g Hwf)
    as (c' & g' & Hb & _ & Hd' & Hb' & Hbuilt & Hfirst).
  exists c', g'. split; [done|]. split; [done|]. split; [done|].
  split; [|split; [|split; [|split; [|split]]]].
  - intros Hd Hbt. rewrite buildMesh_clean in Hb by done. by simplify_eq.
  - apply buildMesh_stale.
  - done.
  - intros Hnb. destruct (Hfirst Hnb) as (? & ? & _). done.
  - by apply buildMesh_clean.
  - intros c'' g''. rewrite buildMesh_clean by done. intros [= <- <-]. done.
Qed.

(** C9, as amended: on a chunk whose storage has the constructed size,
    [setBlock] completes; at an in-bounds coordinate the chunk it leaves has
    [meshDirty = true], whatever the flag was; at an out-of-bounds
    coordinate the flag is what it was before the call. *)
Theorem setBlock_dirty (c : Chunk) (x y z : Z) (T : BlockType) :
  chunk_wf c →
  ∃ c', setBlock c x y z T = Some c' ∧
    meshDirty c' = (if isInBounds x y z then true else meshDirty c).
Proof.
  intros Hwf. destruct (isInBounds x y z) eqn:Hb.
  - rewrite setBlock_in_bounds by done. by eexists.
  - rewrite setBlock_out_of_bounds by done. by eexists.
Qed.

(** C10: a chunk as the constructor leaves it has 65536 cells, all of them
    air, and [getBlock] returns air at every coordinate; [meshDirty] is
    [true] and [meshBuilt] is [false]; so the first [buildMesh] does not
    take the early return: it runs the rebuild, which completes, generates
    the chunk's three OpenGL objects, finds no face and leaves the chunk
    built and clean. *)
Theorem newChunk_initial_state (cx cy cz w : Z) (g : GLState) :
  let c := newChunk cx cy cz w in
  Z.of_nat (length (blocks c)) = 65536 ∧
  (∀ t, t ∈ blocks c → t = Air) ∧
  (∀ x y z, getBlock c x y z = Some Air) ∧
  meshDirty c = true ∧ meshBuilt c = false ∧
  buildMesh c g = rebuildMesh c g ∧
  ∃ c' g', buildMesh c g = Some (c', g') ∧
    meshBuilt c' = true ∧ meshDirty c' = false ∧
    vertexCount c' = 0 ∧ indexCount c' = 0 ∧
    gl_vertex_arrays g' = gl_vertex_arrays g + 1 ∧
    gl_buffers g' = gl_buffers g + 2.
Proof.
  intros c.
  assert (chunk_wf c) as Hwf by apply newChunk_wf.
  assert (∀ t, t ∈ blocks c → t = Air) as Hcells.
  { intros t Ht. by apply elem_of_replicate in Ht as [? _]. }
  assert (∀ x y z, getBlock c x y z = Some Air) as Hair
    by apply newChunk_all_air.
  assert (meshDirty c = true) as Hdirty by reflexivity.
  assert (meshBuilt c = false) as Hbuilt by reflexivity.
  clearbody c.
  split; [by apply chunk_wf_length|].
  split; [done|]. split; [done|]. split; [done|]. split; [done|].
  assert (buildMesh c g = rebuildMesh c g) as Hre
    by (apply buildMesh_stale; by left).
  split; [done|].
  destruct (buildMesh_spec c g Hwf) as (c' & g' & Hb & _ & Hd' & Hb' & _ & Hfirst).
  destruct (rebuildMesh_counts c g Hwf) as (c2 & g2 & Hr & _ & _ & _ & Hvc & Hic).
  rewrite Hre, Hr in Hb. injection Hb as -> ->.
  assert (chunkFaces c = 0) as Hfaces.
  { unfold chunkFaces.
    apply sumZ_range_zero. intros x _.
    apply sumZ_range_zero. intros y _.
    apply sumZ_range_zero. intros z _.
    apply blockFaces_air, Hair. }
  exists c', g'. rewrite Hre.
  destruct (Hfirst Hbuilt) as (Hva & Hbu & _).
  split; [done|]. split; [done|]. split; [done|].
  split; [lia|]. split; [lia|]. done.
Qed.

End Claims.

Lemma buildMesh_idempotent_witness :
  ∃ c' g', buildMesh (F := toyFloat) oneBlockChunk glInit = Some (c', g') ∧
    meshDirty c' = false ∧ meshBuilt c' = true ∧
    buildMesh (F := toyFloat) c' g' = Some (c', g').
Proof.
  assert (chunk_wf oneBlockChunk) as Hwf.
  { unfold oneBlockChunk.
    destruct (setBlock_is_Some (newChunk 0 0 0 0) 5 64 5 Stone
                (newChunk_wf 0 0 0 0)) as [c1 Hc1].
    rewrite Hc1. eapply setBlock_wf; [apply newChunk_wf|exact Hc1]. }
  destruct (buildMesh_idempotent (F := toyFloat) oneBlockChunk glInit Hwf)
    as (c' & g' & H1 & H2 & H3 & _ & _ & _ & _ & H4 & _).
  exists c', g'.
  split; [exact H1|]. split; [exact H2|]. split; [exact H3|exact H4].
Defined.

Lemma setBlock_dirty_witness :
  ∃ c', setBlock (newChunk 0 0 0 0) 1 2 3 Dirt = Some c' ∧
    meshDirty c' = (if isInBounds 1 2 3 then true else meshDirty (newChunk 0 0 0 0)).
Proof.
  apply (setBlock_dirty (newChunk 0 0 0 0) 1 2 3 Dirt). apply newChunk_wf.
Defined.

Lemma oneBlockChunk_eq :
  setBlock (newChunk 0 0 0 0) 5 64 5 Stone = Some oneBlockChunk.
Proof.
  unfold oneBlockChunk.
  by destruct (setBlock_is_Some (newChunk 0 0 0 0) 5 64 5 Stone
                 (newChunk_wf 0 0 0 0)) as [c1 ->].
Qed.

Lemma oneBlockChunk_wf : chunk_wf oneBlockChunk.
Proof.
  eapply setBlock_wf; [apply newChunk_wf | apply oneBlockChunk_eq].
Qed.

Lemma oneBlockChunk_stone : getBlock oneBlockChunk 5 64 5 = Some Stone.
Proof. eapply getBlock_setBlock_eq; [done | apply oneBlockChunk_eq]. Qed.

Lemma oneBlockChunk_air (x y z : Z) :
  (x, y, z) ≠ (5, 64, 5) → getBlock oneBlockChunk x y z = Some Air.
Proof.
  intros Hne.
  rewrite (getBlock_setBlock_ne (newChunk 0 0 0 0) oneBlockChunk 5 64 5 x y z Stone);
    [apply newChunk_all_air | congruence | apply oneBlockChunk_eq].
Qed.

(** C9 fails outside the bounds: the chunk that the first [buildMesh]
    leaves behind is clean, and [setBlock(-1, 0, 0, Stone)] returns it as it
    is, with [meshDirty] still [false]. *)
Lemma setBlock_out_of_bounds_stays_clean :
  ∃ c g, buildMesh (F := toyFloat) (newChunk 0 0 0 0) glInit = Some (c, g) ∧
    meshDirty c = false ∧
    setBlock c (-1) 0 0 Stone = Some c ∧
    ¬ (∀ c', setBlock c (-1) 0 0 Stone = Some c' → meshDirty c' = true).
Proof.
  destruct (buildMesh_spec (F := toyFloat) (newChunk 0 0 0 0) glInit
              (newChunk_wf 0 0 0 0)) as (c & g & Hb & _ & Hd & _).
  exists c, g. split; [done|]. split; [done|].
  assert (setBlock c (-1) 0 0 Stone = Some c) as Hset
    by (by apply setBlock_out_of_bounds).
  split; [done|]. intros H. specialize (H c Hset). congruence.
Qed.

(** ** Exposed faces *)

Lemma getBlock_solid_in_bounds (c : Chunk) (x y z : Z) :
  getBlock c x y z ≠ Some Air → 0 ≤ x < 16 ∧ 0 ≤ y < 256 ∧ 0 ≤ z < 16.
Proof.
  intros H. apply isInBounds_true.
  destruct (isInBounds x y z) eqn:Hb; [done|].
  by rewrite getBlock_out_of_bounds in H.
Qed.

Lemma faceNeighbor_ne (x y z face : Z) :
  0 ≤ x < 16 → 0 ≤ y < 256 → 0 ≤ z < 16 → 0 ≤ face < 6 →
  faceNeighbor x y z face ≠ (x, y, z).
Proof.
  intros Hx Hy Hz Hf.
  assert (face = 0 ∨ face = 1 ∨ face = 2 ∨ face = 3 ∨ face = 4 ∨ face = 5)
    as [->|[->|[->|[->|[->| ->]]]]] by lia;
    unfold faceNeighbor; cbn [Z.eqb Pos.eqb]; int_small; intros [= ?]; lia.
Qed.

Lemma neighborIsAir_alone (c : Chunk) (x y z face : Z) :
  0 ≤ x < 16 → 0 ≤ y < 256 → 0 ≤ z < 16 → 0 ≤ face < 6 →
  (∀ x' y' z', (x', y', z') ≠ (x, y, z) → getBlock c x' y' z' = Some Air) →
  neighborIsAir c x y z face = true.
Proof.
  intros Hx Hy Hz Hf Hair. unfold neighborIsAir.
  pose proof (faceNeighbor_ne x y z face Hx Hy Hz Hf) as Hne.
  destruct (faceNeighbor x y z face) as [[nx ny] nz].
  apply bool_decide_eq_true_2. by apply Hair.
Qed.

Lemma chunkFaces_single (c : Chunk) (x y z : Z) :
  0 ≤ x < 16 → 0 ≤ y < 256 → 0 ≤ z < 16 →
  (∀ x' y' z', (x', y', z') ≠ (x, y, z) → getBlock c x' y' z' = Some Air) →
  chunkFaces c = blockFaces c x y z.
Proof.
  intros Hx Hy Hz Hair. unfold chunkFaces, CHUNK_SIZE, CHUNK_HEIGHT.
  rewrite (sumZ_range_unique _ 16 x) by
    (try done; intros x' _ Hne; apply sumZ_range_zero; intros y' _;
     apply sumZ_range_zero; intros z' _; apply blockFaces_air, Hair; congruence).
  rewrite (sumZ_range_unique _ 256 y) by
    (try done; intros y' _ Hne; apply sumZ_range_zero; intros z' _;
     apply blockFaces_air, Hair; congruence).
  rewrite (sumZ_range_unique _ 16 z) by
    (try done; intros z' _ Hne; apply blockFaces_air, Hair; congruence).
  done.
Qed.

Lemma blockFaces_alone (c : Chunk) (x y z : Z) :
  getBlock c x y z ≠ Some Air →
  (∀ x' y' z', (x', y', z') ≠ (x, y, z) → getBlock c x' y' z' = Some Air) →
  blockFaces c x y z = 6.
Proof.
  intros Hsolid Hair.
  destruct (getBlock_solid_in_bounds c x y z Hsolid) as (Hx & Hy & Hz).
  rewrite blockFaces_solid by done.
  rewrite !neighborIsAir_alone by (done || lia). done.
Qed.

Lemma blockFaces_one_neighbor (c : Chunk) (x y z f0 : Z) :
  getBlock c x y z ≠ Some Air →
  0 ≤ f0 < 6 →
  neighborIsAir c x y z f0 = false →
  (∀ f, 0 ≤ f < 6 → f ≠ f0 → neighborIsAir c x y z f = true) →
  blockFaces c x y z = 5.
Proof.
  intros Hsolid Hf0 Hn Hothers. rewrite blockFaces_solid by done.
  assert (f0 = 0 ∨ f0 = 1 ∨ f0 = 2 ∨ f0 = 3 ∨ f0 = 4 ∨ f0 = 5)
    as [->|[->|[->|[->|[->| ->]]]]] by lia;
    rewrite Hn; rewrite !Hothers by lia; done.
Qed.

Lemma twoBlockChunk_eq : setBlock oneBlockChunk 5 65 5 Dirt = Some twoBlockChunk.
Proof.
  unfold twoBlockChunk.
  by destruct (setBlock_is_Some oneBlockChunk 5 65 5 Dirt oneBlockChunk_wf)
    as [c1 ->].
Qed.

Lemma twoBlockChunk_wf : chunk_wf twoBlockChunk.
Proof.
  eapply setBlock_wf; [apply oneBlockChunk_wf | apply twoBlockChunk_eq].
Qed.

Lemma twoBlockChunk_dirt : getBlock twoBlockChunk 5 65 5 = Some Dirt.
Proof. eapply getBlock_setBlock_eq; [done | apply twoBlockChunk_eq]. Qed.

Lemma twoBlockChunk_other (x y z : Z) :
  (x, y, z) ≠ (5, 65, 5) →
  getBlock twoBlockChunk x y z = getBlock oneBlockChunk x y z.
Proof.
  intros Hne. eapply getBlock_setBlock_ne; [|apply twoBlockChunk_eq]. congruence.
Qed.

Section MeshClaim.
Context {F : FloatOps}.

(** C4: in a chunk whose storage has the constructed size,
    - [addFaceIfExposed] on one of the six faces appends the face exactly
      when the adjacent cell, looked up with the chunk's own [getBlock]
      (air outside the chunk), is air, and leaves the mesh alone otherwise;
      an appended face is 4 vertices (32 floats) and 6 indices;
    - the loop body emits nothing for an air block and, for any other
      block, as many faces as it has air neighbours; the rebuild completes
      and stores 4 vertices and 6 indices per exposed face of the chunk;
    - a chunk whose only non-air block is [(x, y, z)] therefore gets 6
      faces: [vertexCount = 24], [indexCount = 36];
    - a non-air block with exactly one non-air neighbour contributes 5
      faces, and one whose six neighbours are all air contributes 6. *)
Theorem mesh_faces (c : Chunk) :
  chunk_wf c →
  (∀ x y z bt face m, 0 ≤ face < 6 →
     addFaceIfExposed c x y z bt face m =
       Some (if neighborIsAir c x y z face
             then addFace c x y z face bt m else m) ∧
     meshGrows m (addFace c x y z face bt m) 1) ∧
  (∀ x y z m,
     ∃ m', meshBlock c x y z m = Some m' ∧ meshGrows m m' (blockFaces c x y z)) ∧
  (∀ g, ∃ c' g', rebuildMesh c g = Some (c', g') ∧
     vertexCount c' = 4 * chunkFaces c ∧ indexCount c' = 6 * chunkFaces c) ∧
  (∀ x y z g,
     getBlock c x y z ≠ Some Air →
     (∀ x' y' z', (x', y', z') ≠ (x, y, z) → getBlock c x' y' z' = Some Air) →
     chunkFaces c = 6 ∧
     ∃ c' g', rebuildMesh c g = Some (c', g') ∧
       vertexCount c' = 24 ∧ indexCount c' = 36) ∧
  (∀ x y z f0 m,
     getBlock c x y z ≠ Some Air →
     0 ≤ f0 < 6 →
     neighborIsAir c x y z f0 = false →
     (∀ f, 0 ≤ f < 6 → f ≠ f0 → neighborIsAir c x y z f = true) →
     blockFaces c x y z = 5 ∧
     ∃ m', meshBlock c x y z m = Some m' ∧ meshGrows m m' 5) ∧
  (∀ x y z m,
     getBlock c x y z ≠ Some Air →
     (∀ f, 0 ≤ f < 6 → neighborIsAir c x y z f = true) →
     blockFaces c x y z = 6 ∧
     ∃ m', meshBlock c x y z m = Some m' ∧ meshGrows m m' 6).
Proof.
  intros Hwf. split; [|split; [|split; [|split; [|split]]]].
  - intros x y z bt face m Hf. split.
    + by apply addFaceIfExposed_spec.
    + by apply addFace_grows.
  - intros x y z m. by apply meshBlock_grows.
  - intros g.
    destruct (rebuildMesh_counts c g Hwf) as (c' & g' & Hr & _ & _ & _ & Hv & Hi).
    by exists c', g'.
  - intros x y z g Hsolid Hair.
    destruct (getBlock_solid_in_bounds c x y z Hsolid) as (Hx & Hy & Hz).
    assert (chunkFaces c = 6) as Hsix.
    { rewrite (chunkFaces_single c x y z) by done. by apply blockFaces_alone. }
    split; [done|].
    destruct (rebuildMesh_counts c g Hwf) as (c' & g' & Hr & _ & _ & _ & Hv & Hi).
    exists c', g'. rewrite Hv, Hi, Hsix. done.
  - intros x y z f0 m Hsolid Hf0 Hn Hothers.
    assert (blockFaces c x y z = 5) as Hfive
      by (by eapply blockFaces_one_neighbor).
    split; [done|]. rewrite <- Hfive. by apply meshBlock_grows.
  - intros x y z m Hsolid Hall.
    assert (blockFaces c x y z = 6) as Hsix.
    { rewrite blockFaces_solid by done. rewrite !Hall by lia. done. }
    split; [done|]. rewrite <- Hsix. by apply meshBlock_grows.
Qed.

End MeshClaim.

Lemma mesh_faces_witness :
  (chunkFaces oneBlockChunk = 6 ∧
   ∃ c' g', rebuildMesh (F := toyFloat) oneBlockChunk glInit = Some (c', g') ∧
     vertexCount c' = 24 ∧ indexCount c' = 36) ∧
  (blockFaces twoBlockChunk 5 64 5 = 5 ∧
   ∃ m', meshBlock (F := toyFloat) twoBlockChunk 5 64 5 ([], []) = Some m' ∧
     meshGrows ([], []) m' 5).
Proof.
  split.
  - destruct (mesh_faces (F := toyFloat) oneBlockChunk oneBlockChunk_wf)
      as (_ & _ & _ & Hsingle & _ & _).
    apply (Hsingle 5 64 5 glInit).
    + rewrite oneBlockChunk_stone. discriminate.
    + apply oneBlockChunk_air.
  - destruct (mesh_faces (F := toyFloat) twoBlockChunk twoBlockChunk_wf)
      as (_ & _ & _ & _ & Hfive & _).
    apply (Hfive 5 64 5 5 ([], [])).
    + rewrite twoBlockChunk_other, oneBlockChunk_stone; congruence.
    + lia.
    + unfold neighborIsAir, faceNeighbor. cbn [Z.eqb Pos.eqb].
      rewrite int_add_small by (unfold INT_MIN, INT_MAX; lia).
      apply bool_decide_eq_false_2.
      change (64 + 1) with 65. rewrite twoBlockChunk_dirt. congruence.
    + intros f Hf Hne.
      assert (f = 0 ∨ f = 1 ∨ f = 2 ∨ f = 3 ∨ f = 4) as [->|[->|[->|[->| ->]]]]
        by lia;
        unfold neighborIsAir, faceNeighbor; cbn [Z.eqb Pos.eqb];
        apply bool_decide_eq_true_2;
        (rewrite twoBlockChunk_other by (vm_compute; congruence));
        apply oneBlockChunk_air; vm_compute; congruence.
Defined.

Lemma generate_layers_witness :
  ∃ c', generate (F := toyFloat) (newChunk 0 0 0 0) = Some c' ∧
    ∀ x z, 0 ≤ x < 16 → 0 ≤ z < 16 →
      let h := generateHeight (F := toyFloat) (newChunk 0 0 0 0)
                 (worldCoord (F := toyFloat) (chunkX (newChunk 0 0 0 0)) x)
                 (worldCoord (F := toyFloat) (chunkZ (newChunk 0 0 0 0)) z) in
      1 ≤ h ≤ CHUNK_HEIGHT - 1 ∧
      ∀ y, 0 ≤ y < 256 →
        (y < h - 3 → getBlock c' x y z = Some Stone) ∧
        (h - 3 ≤ y < h → getBlock c' x y z = Some Dirt) ∧
        (y = h → getBlock c' x y z = Some Grass) ∧
        (h < y → getBlock c' x y z = Some Air).
Proof.
  apply (generate_layers (F := toyFloat) (newChunk 0 0 0 0)).
  apply newChunk_wf.
Defined.

(** ** The definitions on concrete inputs *)

Example wrap_int_overflow : wrap_int (INT_MAX + 1) = INT_MIN.
Proof. reflexivity. Qed.

Example getBlockIndex_example : getBlockIndex 3 70 9 = 18067.
Proof. reflexivity. Qed.

Example GetIndex_last : ChunkH.GetIndex 15 255 15 = 65535.
Proof. reflexivity. Qed.

Example CHUNK_VOLUME_value : ChunkH.CHUNK_VOLUME = 65536.
Proof. reflexivity. Qed.

Example isInBounds_edge :
  isInBounds 15 255 15 = true ∧ isInBounds 16 0 0 = false ∧
  isInBounds 0 256 0 = false ∧ isInBounds 0 0 (-1) = false.
Proof. repeat split. Qed.

Example clamp_example : clamp 0 1 255 = 1 ∧ clamp 300 1 255 = 255 ∧ clamp 55 1 255 = 55.
Proof. repeat split. Qed.

Example columnBlock_low :
  columnBlock 2 0 = Dirt ∧ columnBlock 2 1 = Dirt ∧ columnBlock 2 2 = Grass ∧
  columnBlock 2 3 = Air ∧ columnBlock 3 0 = Dirt ∧ columnBlock 4 0 = Stone.
Proof. repeat split. Qed.

Example columnBlock_high :
  columnBlock 255 251 = Stone ∧ columnBlock 255 252 = Dirt ∧
  columnBlock 255 254 = Dirt ∧ columnBlock 255 255 = Grass.
Proof. repeat split. Qed.

Example generateHeight_toy (c : Chunk) :
  generateHeight (F := toyFloat) c 7 (-3) = 55.
Proof. reflexivity. Qed.

Example faceNeighbor_example :
  faceNeighbor 0 0 0 2 = (-1, 0, 0) ∧ faceNeighbor 15 255 15 5 = (15, 256, 15).
Proof. repeat split. Qed.

Example addFace_first (c : Chunk) :
  snd (addFace (F := toyFloat) c 1 2 3 5 Stone ([], [])) = [0; 1; 2; 0; 2; 3].
Proof. reflexivity. Qed.

Example chunkKey_example :
  chunkKey 1 2 = 65538 ∧ chunkKey (-1) 0 = -65536 ∧ chunkKey 0 (-1) = 65535.
Proof. repeat split. Qed.

(** * Further properties *)

(** ** Algebra of block writes *)

(** X1: a [setBlock] that returns changes nothing but the written cell and
    the dirty flag: every other coordinate reads as before, and position,
    world pointer, built flag, OpenGL names, counts and the size of the
    storage are as they were. *)
Theorem setBlock_frame (c c' : Chunk) (x y z : Z) (T : BlockType) :
  setBlock c x y z T = Some c' →
  (∀ x' y' z', (x', y', z') ≠ (x, y, z) →
     getBlock c' x' y' z' = getBlock c x' y' z') ∧
  chunkX c' = chunkX c ∧ chunkY c' = chunkY c ∧ chunkZ c' = chunkZ c ∧
  world c' = world c ∧ meshBuilt c' = meshBuilt c ∧
  vao c' = vao c ∧ vbo c' = vbo c ∧ ebo c' = ebo c ∧
  vertexCount c' = vertexCount c ∧ indexCount c' = indexCount c ∧
  length (blocks c') = length (blocks c).
Proof.
  intros Hset. split.
  - intros x' y' z' Hne. eapply getBlock_setBlock_ne; [|exact Hset]. congruence.
  - revert Hset. unfold setBlock.
    destruct (isInBounds x y z); [|intros [= <-]; tauto].
    destruct (vector_set _ _ _) as [b|] eqn:Hb; cbn [mbind option_bind]; [|done].
    intros [= <-]. cbn. apply vector_set_length in Hb. tauto.
Qed.

Lemma setBlock_frame_witness :
  (∀ x' y' z', (x', y', z') ≠ (5, 64, 5) →
     getBlock oneBlockChunk x' y' z' = getBlock (newChunk 0 0 0 0) x' y' z') ∧
  chunkX oneBlockChunk = chunkX (newChunk 0 0 0 0) ∧
  chunkY oneBlockChunk = chunkY (newChunk 0 0 0 0) ∧
  chunkZ oneBlockChunk = chunkZ (newChunk 0 0 0 0) ∧
  world oneBlockChunk = world (newChunk 0 0 0 0) ∧
  meshBuilt oneBlockChunk = meshBuilt (newChunk 0 0 0 0) ∧
  vao oneBlockChunk = vao (newChunk 0 0 0 0) ∧
  vbo oneBlockChunk = vbo (newChunk 0 0 0 0) ∧
  ebo oneBlockChunk = ebo (newChunk 0 0 0 0) ∧
  vertexCount oneBlockChunk = vertexCount (newChunk 0 0 0 0) ∧
  indexCount oneBlockChunk = indexCount (newChunk 0 0 0 0) ∧
  length (blocks oneBlockChunk) = length (blocks (newChunk 0 0 0 0)).
Proof.
  exact (setBlock_frame (newChunk 0 0 0 0) oneBlockChunk 5 64 5 Stone
           oneBlockChunk_eq).
Defined.

(** X2: the last write to a cell wins: two [setBlock] calls on the same
    coordinate leave the chunk that the second call alone would leave. *)
Theorem setBlock_overwrite (c : Chunk) (x y z : Z) (T1 T2 : BlockType) :
  chunk_wf c →
  setBlock c x y z T1 ≫= (λ c1, setBlock c1 x y z T2) = setBlock c x y z T2.
Proof.
  intros Hwf. destruct (isInBounds x y z) eqn:Hb.
  - pose proof (setBlock_in_bounds c x y z T1 Hwf Hb) as H1.
    assert (chunk_wf (set_meshDirty
              (set_blocks c (<[Z.to_nat (getBlockIndex x y z) := T1]> (blocks c)))
              true)) as Hwf1 by (by eapply setBlock_wf).
    rewrite H1. cbn [mbind option_bind].
    rewrite (setBlock_in_bounds _ x y z T2 Hwf1 Hb).
    rewrite (setBlock_in_bounds c x y z T2 Hwf Hb).
    f_equal. unfold set_meshDirty, set_blocks. cbn. f_equal.
    apply list_insert_insert_eq.
  - rewrite (setBlock_out_of_bounds c x y z T1) by done.
    cbn [mbind option_bind]. by rewrite !setBlock_out_of_bounds.
Qed.

Lemma setBlock_overwrite_witness :
  setBlock (newChunk 0 0 0 0) 1 2 3 Dirt
    ≫= (λ c1, setBlock c1 1 2 3 Grass) =
  setBlock (newChunk 0 0 0 0) 1 2 3 Grass.
Proof.
  apply (setBlock_overwrite (newChunk 0 0 0 0) 1 2 3 Dirt Grass).
  apply newChunk_wf.
Defined.

(** X3: writes to different coordinates commute: the two orders leave the
    same chunk. *)
Theorem setBlock_commute (c : Chunk) (x1 y1 z1 x2 y2 z2 : Z)
    (T1 T2 : BlockType) :
  chunk_wf c → (x1, y1, z1) ≠ (x2, y2, z2) →
  setBlock c x1 y1 z1 T1 ≫= (λ c1, setBlock c1 x2 y2 z2 T2) =
  setBlock c x2 y2 z2 T2 ≫= (λ c1, setBlock c1 x1 y1 z1 T1).
Proof.
  intros Hwf Hne.
  assert (∀ x y z T c1, setBlock c x y z T = Some c1 → chunk_wf c1) as Hwf'
    by (intros; by eapply setBlock_wf).
  destruct (isInBounds x1 y1 z1) eqn:Hb1, (isInBounds x2 y2 z2) eqn:Hb2.
  - pose proof (setBlock_in_bounds c x1 y1 z1 T1 Hwf Hb1) as H1.
    pose proof (setBlock_in_bounds c x2 y2 z2 T2 Hwf Hb2) as H2.
    pose proof (Hwf' _ _ _ _ _ H1) as Hwf1.
    pose proof (Hwf' _ _ _ _ _ H2) as Hwf2.
    rewrite H1, H2. cbn [mbind option_bind].
    rewrite (setBlock_in_bounds _ x2 y2 z2 T2 Hwf1 Hb2).
    rewrite (setBlock_in_bounds _ x1 y1 z1 T1 Hwf2 Hb1).
    f_equal. unfold set_meshDirty, set_blocks. cbn. f_equal.
    apply list_insert_insert_ne. intros Heq.
    pose proof (getBlockIndex_range _ _ _ Hb1).
    pose proof (getBlockIndex_range _ _ _ Hb2).
    apply Z2Nat.inj in Heq; [|lia|lia].
    apply getBlockIndex_inj in Heq as (-> & -> & ->); done.
  - rewrite (setBlock_out_of_bounds c x2 y2 z2) by done.
    cbn [mbind option_bind].
    destruct (setBlock c x1 y1 z1 T1) as [c1|]; cbn [mbind option_bind]; [|done].
    by rewrite setBlock_out_of_bounds.
  - rewrite (setBlock_out_of_bounds c x1 y1 z1) by done.
    cbn [mbind option_bind].
    destruct (setBlock c x2 y2 z2 T2) as [c1|]; cbn [mbind option_bind]; [|done].
    by rewrite setBlock_out_of_bounds.
  - rewrite (setBlock_out_of_bounds c x1 y1 z1) by done.
    rewrite (setBlock_out_of_bounds c x2 y2 z2) by done.
    cbn [mbind option_bind]. by rewrite !setBlock_out_of_bounds.
Qed.

Lemma setBlock_commute_witness :
  setBlock (newChunk 0 0 0 0) 1 2 3 Dirt ≫= (λ c1, setBlock c1 1 3 3 Grass) =
  setBlock (newChunk 0 0 0 0) 1 3 3 Grass ≫= (λ c1, setBlock c1 1 2 3 Dirt).
Proof.
  apply (setBlock_commute (newChunk 0 0 0 0) 1 2 3 1 3 3 Dirt Grass).
  - apply newChunk_wf.
  - congruence.
Defined.

Section WriteSame.
Context {F : FloatOps}.

(** X4: [setBlock] does not compare with the stored value: writing the
    type a cell already holds leaves the storage as it is but still sets
    the dirty flag, so the next [buildMesh] runs the whole rebuild. *)
Theorem setBlock_same_value_marks_dirty (c : Chunk) (x y z : Z)
    (T : BlockType) (g : GLState) :
  chunk_wf c → 0 ≤ x < 16 → 0 ≤ y < 256 → 0 ≤ z < 16 →
  getBlock c x y z = Some T →
  ∃ c', setBlock c x y z T = Some c' ∧
    blocks c' = blocks c ∧ meshDirty c' = true ∧
    buildMesh c' g = rebuildMesh c' g.
Proof.
  intros Hwf Hx Hy Hz Hget.
  assert (isInBounds x y z = true) as Hb by (by apply isInBounds_true).
  rewrite setBlock_in_bounds by done. eexists. split; [done|].
  assert (<[Z.to_nat (getBlockIndex x y z) := T]> (blocks c) = blocks c) as Hid.
  { apply list_insert_id. revert Hget. unfold getBlock, vector_at.
    rewrite Hb. by case_decide. }
  split; [exact Hid|]. split; [done|].
  apply buildMesh_stale. by left.
Qed.

End WriteSame.

Lemma setBlock_same_value_marks_dirty_witness :
  ∃ c', setBlock (newChunk 0 0 0 0) 1 2 3 Air = Some c' ∧
    blocks c' = blocks (newChunk 0 0 0 0) ∧ meshDirty c' = true ∧
    buildMesh (F := toyFloat) c' glInit = rebuildMesh (F := toyFloat) c' glInit.
Proof.
  apply (setBlock_same_value_marks_dirty (F := toyFloat)
           (newChunk 0 0 0 0) 1 2 3 Air glInit);
    [apply newChunk_wf | lia | lia | lia | apply newChunk_all_air].
Defined.

(** ** Storage is what [getBlock] shows *)

Lemma index_bijection_aux (i : Z) :
  0 ≤ i < 65536 →
  ∃ x y z, isInBounds x y z = true ∧ getBlockIndex x y z = i.
Proof.
  intros Hi. exists (i mod 16), (i / 256), ((i / 16) mod 16).
  pose proof (Z.mod_pos_bound i 16 ltac:(lia)) as Hx.
  pose proof (Z.mod_pos_bound (i / 16) 16 ltac:(lia)) as Hz.
  assert (0 ≤ i / 256 < 256) as Hy.
  { split; [apply Z.div_pos; lia | apply Z.div_lt_upper_bound; lia]. }
  split; [by apply isInBounds_true|].
  rewrite getBlockIndex_small by done.
  pose proof (Z.div_mod i 16 ltac:(lia)) as H1.
  pose proof (Z.div_mod (i / 16) 16 ltac:(lia)) as H2.
  rewrite Z.div_div in H2 by lia. change (16 * 16) with 256 in H2. lia.
Qed.

Lemma getBlock_lookup (c : Chunk) (x y z : Z) :
  isInBounds x y z = true →
  getBlock c x y z = blocks c !! Z.to_nat (getBlockIndex x y z).
Proof.
  intros Hb. unfold getBlock, vector_at. rewrite Hb.
  apply getBlockIndex_range in Hb. by rewrite decide_True by lia.
Qed.

Lemma blocks_of_getBlock (c1 c2 : Chunk) :
  chunk_wf c1 → chunk_wf c2 →
  (∀ x y z, isInBounds x y z = true → getBlock c1 x y z = getBlock c2 x y z) →
  blocks c1 = blocks c2.
Proof.
  intros Hwf1%chunk_wf_length Hwf2%chunk_wf_length Hget.
  apply list_eq. intros i.
  destruct (decide (Z.of_nat i < 65536)) as [Hi|Hi].
  - destruct index_bijection_aux with (i := Z.of_nat i)
      as (x & y & z & Hb & Hidx); [lia|].
    specialize (Hget x y z Hb).
    rewrite !getBlock_lookup in Hget by done.
    by rewrite Hidx, Nat2Z.id in Hget.
  - rewrite !lookup_ge_None_2 by lia. done.
Qed.

(** X5: the block storage of a chunk is determined by what [getBlock]
    returns on the cube: two well-sized chunks on which [getBlock] agrees
    at every in-bounds coordinate hold the same block vector. *)
Theorem blocks_ext (c1 c2 : Chunk) :
  chunk_wf c1 → chunk_wf c2 →
  (∀ x y z, 0 ≤ x < 16 → 0 ≤ y < 256 → 0 ≤ z < 16 →
     getBlock c1 x y z = getBlock c2 x y z) →
  blocks c1 = blocks c2.
Proof.
  intros Hwf1 Hwf2 Hget. apply blocks_of_getBlock; [done|done|].
  intros x y z (Hx & Hy & Hz)%isInBounds_true. by apply Hget.
Qed.

Lemma blocks_ext_witness :
  blocks (newChunk 0 0 0 0) = blocks (newChunk 7 1 (-3) 5).
Proof.
  apply (blocks_ext (newChunk 0 0 0 0) (newChunk 7 1 (-3) 5)).
  - apply newChunk_wf.
  - apply newChunk_wf.
  - intros x y z _ _ _. by rewrite !newChunk_all_air.
Defined.

(** ** More on terrain generation *)

(** The fields of a chunk that block writes and [generate] leave alone. *)
Lemma for_each_inv {S A} (I : S → Prop) (l : list A)
    (body : A → S → option S) (s s' : S) :
  I s →
  (∀ a s1 s2, a ∈ l → I s1 → body a s1 = Some s2 → I s2) →
  for_each l body s = Some s' → I s'.
Proof.
  revert s. induction l as [|a l IH]; intros s Hs Hbody; simpl.
  - by intros [= <-].
  - destruct (body a s) as [s1|] eqn:Hs1; [|done].
    apply IH.
    + eapply Hbody; [left|exact Hs|exact Hs1].
    + intros a' s2 s3 Ha'. apply Hbody. by right.
Qed.

Section Generation.
Context {F : FloatOps}.

Lemma terrainBlock_position (c1 c2 : Chunk) (x y z : Z) :
  chunkX c1 = chunkX c2 → chunkZ c1 = chunkZ c2 →
  terrainBlock c1 x y z = terrainBlock c2 x y z.
Proof.
  intros Hx Hz. unfold terrainBlock, terrainHeight. rewrite Hx, Hz. done.
Qed.

Lemma generate_position (c : Chunk) :
  chunk_wf c →
  ∃ c', generate c = Some c' ∧ chunk_wf c' ∧ meshDirty c' = true ∧
    chunkX c' = chunkX c ∧ chunkZ c' = chunkZ c ∧
    ∀ x y z, isInBounds x y z = true →
      getBlock c' x y z = Some (terrainBlock c x y z).
Proof.
  intros Hwf.
  destruct (fills_generate_loops c c Hwf eq_refl eq_refl)
    as (c' & Hc' & Hwf' & Hx & Hz & Hget).
  exists (set_meshDirty c' true). cbv zeta in Hc'.
  unfold generate. rewrite Hc'. cbn [mbind option_bind].
  split; [done|]. split; [exact Hwf'|]. split; [done|].
  split; [exact Hx|]. split; [exact Hz|].
  intros x y z Hb. by apply (Hget x y z Hb).
Qed.

(** X6: [generate] overwrites every cell from the chunk's position alone:
    two well-sized chunks with the same [chunkX] and [chunkZ], whatever they
    held before, hold the same block vector after [generate]; in
    particular generating a second time changes no block. *)
Theorem generate_position_only (c1 c2 : Chunk) :
  chunk_wf c1 → chunk_wf c2 →
  chunkX c1 = chunkX c2 → chunkZ c1 = chunkZ c2 →
  ∃ c1' c2', generate c1 = Some c1' ∧ generate c2 = Some c2' ∧
    blocks c1' = blocks c2' ∧
    ∃ c1'', generate c1' = Some c1'' ∧ blocks c1'' = blocks c1'.
Proof.
  intros Hwf1 Hwf2 Hx Hz.
  destruct (generate_position c1 Hwf1)
    as (c1' & Hg1 & Hwf1' & _ & Hx1 & Hz1 & Hget1).
  destruct (generate_position c2 Hwf2)
    as (c2' & Hg2 & Hwf2' & _ & _ & _ & Hget2).
  destruct (generate_position c1' Hwf1')
    as (c1'' & Hg1' & Hwf1'' & _ & _ & _ & Hget1').
  exists c1', c2'. split; [done|]. split; [done|]. split.
  - apply blocks_of_getBlock; [done|done|]. intros x y z Hb.
    rewrite Hget1, Hget2 by done.
    f_equal. by apply terrainBlock_position.
  - exists c1''. split; [done|].
    apply blocks_of_getBlock; [done|done|]. intros x y z Hb.
    rewrite Hget1, Hget1' by done.
    f_equal. by apply terrainBlock_position.
Qed.

End Generation.

Lemma generate_position_only_witness :
  ∃ c1' c2',
    generate (F := toyFloat) oneBlockChunk = Some c1' ∧
    generate (F := toyFloat) (newChunk 0 9 0 4) = Some c2' ∧
    blocks c1' = blocks c2' ∧
    ∃ c1'', generate (F := toyFloat) c1' = Some c1'' ∧ blocks c1'' = blocks c1'.
Proof.
  apply (generate_position_only (F := toyFloat) oneBlockChunk (newChunk 0 9 0 4)).
  - apply oneBlockChunk_wf.
  - apply newChunk_wf.
  - exact (proj1 (setBlock_coords _ _ _ _ _ _ oneBlockChunk_eq)).
  - exact (proj2 (proj2 (setBlock_coords _ _ _ _ _ _ oneBlockChunk_eq))).
Defined.

Lemma sameFrame_refl (c : Chunk) : sameFrame c c.
Proof. unfold sameFrame. tauto. Qed.

Lemma sameFrame_trans (c1 c2 c3 : Chunk) :
  sameFrame c1 c2 → sameFrame c2 c3 → sameFrame c1 c3.
Proof. unfold sameFrame. intuition congruence. Qed.

Lemma setBlock_sameFrame (c c' : Chunk) (x y z : Z) (T : BlockType) :
  setBlock c x y z T = Some c' → sameFrame c c'.
Proof.
  unfold setBlock. destruct (isInBounds x y z);
    [|intros [= <-]; apply sameFrame_refl].
  destruct (vector_set _ _ _) as [b|]; cbn [mbind option_bind]; [|done].
  intros [= <-]. unfold sameFrame. cbn. tauto.
Qed.

Section GenerationFrame.
Context {F : FloatOps}.

Lemma generate_sameFrame (c c' : Chunk) :
  generate c = Some c' → sameFrame c c'.
Proof.
  unfold generate, for_range.
  destruct (for_each (seqZ 0 CHUNK_SIZE) _ c) as [c1|] eqn:Hloop;
    cbn [mbind option_bind]; [|done].
  intros [= <-].
  assert (sameFrame c c1) as Hframe.
  { revert Hloop. apply for_each_inv; [apply sameFrame_refl|].
    intros x s1 s2 _ Hs1. apply for_each_inv; [exact Hs1|].
    intros z s3 s4 _ Hs3. apply for_each_inv; [exact Hs3|].
    intros y s5 s6 _ Hs5 Hset.
    eapply sameFrame_trans; [exact Hs5|]. by eapply setBlock_sameFrame. }
  unfold sameFrame in *. cbn. tauto.
Qed.

(** X7: [generate] touches nothing but the blocks and the dirty flag:
    position, world pointer, built flag, OpenGL names and counts are as
    before, the storage keeps its size, the dirty flag is set, and so the
    next [update] runs the rebuild. *)
Theorem generate_frame (c : Chunk) (g : GLState) :
  chunk_wf c →
  ∃ c', generate c = Some c' ∧ chunk_wf c' ∧ meshDirty c' = true ∧
    chunkX c' = chunkX c ∧ chunkY c' = chunkY c ∧ chunkZ c' = chunkZ c ∧
    world c' = world c ∧ meshBuilt c' = meshBuilt c ∧
    vao c' = vao c ∧ vbo c' = vbo c ∧ ebo c' = ebo c ∧
    vertexCount c' = vertexCount c ∧ indexCount c' = indexCount c ∧
    update c' g = rebuildMesh c' g.
Proof.
  intros Hwf.
  destruct (generate_position c Hwf) as (c' & Hg & Hwf' & Hd & _).
  pose proof (generate_sameFrame c c' Hg) as Hframe.
  exists c'. split; [done|]. split; [done|]. split; [done|].
  unfold sameFrame in Hframe.
  repeat (split; [tauto|]).
  unfold update. rewrite Hd. apply buildMesh_stale. by left.
Qed.

End GenerationFrame.

Lemma generate_frame_witness :
  ∃ c', generate (F := toyFloat) oneBlockChunk = Some c' ∧ chunk_wf c' ∧
    meshDirty c' = true ∧
    chunkX c' = chunkX oneBlockChunk ∧ chunkY c' = chunkY oneBlockChunk ∧
    chunkZ c' = chunkZ oneBlockChunk ∧
    world c' = world oneBlockChunk ∧ meshBuilt c' = meshBuilt oneBlockChunk ∧
    vao c' = vao oneBlockChunk ∧ vbo c' = vbo oneBlockChunk ∧
    ebo c' = ebo oneBlockChunk ∧
    vertexCount c' = vertexCount oneBlockChunk ∧
    indexCount c' = indexCount oneBlockChunk ∧
    update (F := toyFloat) c' glInit = rebuildMesh (F := toyFloat) c' glInit.
Proof.
  apply (generate_frame (F := toyFloat) oneBlockChunk glInit).
  apply oneBlockChunk_wf.
Defined.

(** ** Sums, continued *)

Lemma sumZ_mono {A} (f g : A → Z) (l : list A) :
  (∀ a, a ∈ l → f a ≤ g a) → sumZ f l ≤ sumZ g l.
Proof.
  induction l as [|a l IH]; intros Hfg; simpl; [done|].
  pose proof (Hfg a ltac:(left)).
  pose proof (IH ltac:(intros b Hb; apply Hfg; by right)). lia.
Qed.

Lemma sumZ_const {A} (k : Z) (l : list A) :
  sumZ (λ _, k) l = k * Z.of_nat (length l).
Proof. induction l as [|a l IH]; simpl; [lia|]. rewrite IH. lia. Qed.

Lemma sumZ_plus {A} (f g : A → Z) (l : list A) :
  sumZ (λ a, f a + g a) l = sumZ f l + sumZ g l.
Proof. induction l as [|a l IH]; simpl; [done|]. rewrite IH. lia. Qed.

Lemma sumZ_exchange {A B} (f : A → B → Z) (la : list A) (lb : list B) :
  sumZ (λ a, sumZ (λ b, f a b) lb) la = sumZ (λ b, sumZ (λ a, f a b) la) lb.
Proof.
  induction la as [|a la IH]; simpl.
  - symmetry. by apply sumZ_zero.
  - rewrite IH. by rewrite <- sumZ_plus.
Qed.

Lemma sumZ_range_const (k n : Z) : 0 ≤ n → sumZ (λ _, k) (seqZ 0 n) = k * n.
Proof. intros Hn. rewrite sumZ_const, length_seqZ. by rewrite Z2Nat.id. Qed.

Lemma blockFaces_bounds (c : Chunk) (x y z : Z) : 0 ≤ blockFaces c x y z ≤ 6.
Proof.
  unfold blockFaces. case_decide; [lia|].
  change (seqZ 0 6) with [0; 1; 2; 3; 4; 5]. cbn [sumZ foldr].
  repeat match goal with
         | |- context [neighborIsAir ?c ?x ?y ?z ?f] =>
             destruct (neighborIsAir c x y z f)
         end; lia.
Qed.

Lemma blockFaces_exposed (c : Chunk) (x y z face : Z) :
  getBlock c x y z ≠ Some Air → 0 ≤ face < 6 →
  neighborIsAir c x y z face = true → 1 ≤ blockFaces c x y z.
Proof.
  intros Hsolid Hf Hair. rewrite blockFaces_solid by done.
  assert (face = 0 ∨ face = 1 ∨ face = 2 ∨ face = 3 ∨ face = 4 ∨ face = 5)
    as [->|[->|[->|[->|[->| ->]]]]] by lia; rewrite Hair;
    repeat match goal with
           | |- context [neighborIsAir ?c ?x ?y ?z ?f] =>
               destruct (neighborIsAir c x y z f)
           end; lia.
Qed.

(** ** Generated terrain and its mesh *)

Section Surface.
Context {F : FloatOps}.

Lemma terrainHeight_bounds (c : Chunk) (x z : Z) :
  1 ≤ terrainHeight c x z ≤ 255.
Proof. apply generateHeight_bounds. Qed.

(** X8: in the chunk [generate] leaves, a cell of the column [(x, z)] is
    air exactly above the column's height [h]; the grass block at [h] has
    its top face exposed and its bottom face hidden by the dirt below; so
    the chunk has at least one exposed face per column, 256 in all, and the
    mesh built from it has at least 1024 vertices. *)
Theorem generated_surface (c : Chunk) :
  chunk_wf c →
  ∃ c', generate c = Some c' ∧
    (∀ x z, 0 ≤ x < 16 → 0 ≤ z < 16 →
       let h := generateHeight c (worldCoord (chunkX c) x)
                                 (worldCoord (chunkZ c) z) in
       (∀ y, 0 ≤ y < 256 → (getBlock c' x y z = Some Air ↔ h < y)) ∧
       neighborIsAir c' x h z 5 = true ∧
       neighborIsAir c' x h z 4 = false) ∧
    256 ≤ chunkFaces c' ∧
    ∀ g, ∃ c'' g', buildMesh c' g = Some (c'', g') ∧ 1024 ≤ vertexCount c''.
Proof.
  intros Hwf.
  destruct (generate_position c Hwf) as (c' & Hg & Hwf' & Hd & _ & _ & Hget).
  exists c'. split; [done|].
  assert (∀ x y z, 0 ≤ x < 16 → 0 ≤ z < 16 → 0 ≤ y < 256 →
            getBlock c' x y z = Some (columnBlock (terrainHeight c x z) y))
    as Hcol.
  { intros x y z Hx Hz Hy. by rewrite Hget by (by apply isInBounds_true). }
  assert (∀ x y z, 0 ≤ x < 16 → 0 ≤ z < 16 → 0 ≤ y < 256 →
            (getBlock c' x y z = Some Air ↔ terrainHeight c x z < y)) as Hair.
  { intros x y z Hx Hz Hy. rewrite Hcol by done.
    pose proof (terrainHeight_bounds c x z) as Hh.
    destruct (columnBlock_layers (terrainHeight c x z) y Hh)
      as (H1 & H2 & H3 & H4).
    destruct (Z.lt_ge_cases y (terrainHeight c x z - 3));
      [rewrite H1 by lia; split; [done|lia]|].
    destruct (Z.lt_ge_cases y (terrainHeight c x z));
      [rewrite H2 by lia; split; [done|lia]|].
    destruct (decide (y = terrainHeight c x z));
      [rewrite H3 by lia; split; [done|lia]|].
    rewrite H4 by lia. split; [lia|done]. }
  assert (∀ x z, 0 ≤ x < 16 → 0 ≤ z < 16 →
            neighborIsAir c' x (terrainHeight c x z) z 5 = true) as Htop.
  { intros x z Hx Hz. pose proof (terrainHeight_bounds c x z) as Hh.
    unfold neighborIsAir, faceNeighbor. cbn [Z.eqb Pos.eqb]. int_small.
    apply bool_decide_eq_true_2.
    destruct (decide (terrainHeight c x z = 255)) as [Htop|Hlow].
    - apply getBlock_out_of_bounds, isInBounds_false. lia.
    - apply Hair; lia. }
  assert (∀ x z, 0 ≤ x < 16 → 0 ≤ z < 16 →
            neighborIsAir c' x (terrainHeight c x z) z 4 = false) as Hbottom.
  { intros x z Hx Hz. pose proof (terrainHeight_bounds c x z) as Hh.
    unfold neighborIsAir, faceNeighbor. cbn [Z.eqb Pos.eqb]. int_small.
    apply bool_decide_eq_false_2. rewrite Hair by lia. lia. }
  assert (256 ≤ chunkFaces c') as Hfaces.
  { unfold chunkFaces, CHUNK_SIZE, CHUNK_HEIGHT.
    etrans; [|apply (sumZ_mono (λ _, 16))].
    { rewrite sumZ_range_const by lia. lia. }
    intros x Hx%elem_of_seqZ. cbv beta.
    etrans; [|apply (sumZ_mono (λ y, sumZ
                 (λ z, if decide (y = terrainHeight c x z) then 1 else 0)
                 (seqZ 0 16)))].
    - rewrite sumZ_exchange.
      etrans; [|apply (sumZ_mono (λ _, 1))].
      { rewrite sumZ_range_const by lia. lia. }
      intros z Hz%elem_of_seqZ. cbv beta.
      pose proof (terrainHeight_bounds c x z) as Hh.
      rewrite (sumZ_range_unique _ 256 (terrainHeight c x z)).
      + by rewrite decide_True.
      + lia.
      + intros y _ Hne. by rewrite decide_False.
    - intros y Hy%elem_of_seqZ. cbv beta.
      apply sumZ_mono. intros z Hz%elem_of_seqZ.
      case_decide as Hyh; [|apply blockFaces_bounds].
      subst y. apply (blockFaces_exposed c' x _ z 5); [|lia|apply Htop; lia].
      rewrite Hair by lia. lia. }
  split; [|split; [done|]].
  - intros x z Hx Hz h. split; [|split].
    + intros y Hy. by apply Hair.
    + by apply Htop.
    + by apply Hbottom.
  - intros g.
    assert (buildMesh c' g = rebuildMesh c' g) as ->
      by (apply buildMesh_stale; by left).
    destruct (rebuildMesh_counts c' g Hwf')
      as (c'' & g' & Hr & _ & _ & _ & Hv & _).
    exists c'', g'. split; [done|]. lia.
Qed.

End Surface.

Lemma generated_surface_witness :
  ∃ c', generate (F := toyFloat) (newChunk 0 0 0 0) = Some c' ∧
    (∀ x z, 0 ≤ x < 16 → 0 ≤ z < 16 →
       let h := generateHeight (F := toyFloat) (newChunk 0 0 0 0)
                  (worldCoord (F := toyFloat) (chunkX (newChunk 0 0 0 0)) x)
                  (worldCoord (F := toyFloat) (chunkZ (newChunk 0 0 0 0)) z) in
       (∀ y, 0 ≤ y < 256 → (getBlock c' x y z = Some Air ↔ h < y)) ∧
       neighborIsAir c' x h z 5 = true ∧
       neighborIsAir c' x h z 4 = false) ∧
    256 ≤ chunkFaces c' ∧
    ∀ g, ∃ c'' g', buildMesh (F := toyFloat) c' g = Some (c'', g') ∧
                   1024 ≤ vertexCount c''.
Proof.
  apply (generated_surface (F := toyFloat) (newChunk 0 0 0 0)).
  apply newChunk_wf.
Defined.

(** ** The index buffer refers to the vertex buffer *)

Lemma wrap_uint_bounds (n : Z) : 0 ≤ n → 0 ≤ wrap_uint n ≤ n.
Proof.
  intros Hn. unfold wrap_uint.
  pose proof (Z.mod_pos_bound n (2 ^ 32) ltac:(lia)).
  pose proof (Z.mod_le n (2 ^ 32) Hn ltac:(lia)). lia.
Qed.

Section MeshValid.
Context {F : FloatOps}.

Lemma meshValid_nil : meshValid ([], []).
Proof.
  exists 0. split; [lia|]. split; [done|]. split; [done|].
  intros i Hi. by apply elem_of_nil in Hi.
Qed.

Lemma addFace_valid (c : Chunk) (x y z face : Z) (bt : BlockType) (m : Mesh) :
  0 ≤ face < 6 → meshValid m → meshValid (addFace c x y z face bt m).
Proof.
  intros Hf (n & Hn & Hv & Hi & Hidx). destruct m as [vs ids].
  cbn [fst snd] in *. exists (n + 1). unfold addFace. cbn [fst snd].
  rewrite !length_app, faceVertices_length by done.
  split; [lia|]. split; [lia|]. split; [cbn [length]; lia|].
  assert (Z.of_nat (length vs) / 8 = 4 * n) as Hbase.
  { rewrite Hv. replace (32 * n) with (4 * n * 8) by lia.
    by rewrite Z.div_mul. }
  rewrite Hbase.
  pose proof (wrap_uint_bounds (4 * n) ltac:(lia)) as Hb0.
  pose proof (wrap_uint_bounds (wrap_uint (4 * n) + 1) ltac:(lia)) as Hb1.
  pose proof (wrap_uint_bounds (wrap_uint (4 * n) + 2) ltac:(lia)) as Hb2.
  pose proof (wrap_uint_bounds (wrap_uint (4 * n) + 3) ltac:(lia)) as Hb3.
  intros i [Hold|Hnew]%elem_of_app.
  - specialize (Hidx i Hold). lia.
  - repeat (apply elem_of_cons in Hnew as [->|Hnew]; [lia|]).
    by apply elem_of_nil in Hnew.
Qed.

Lemma meshBlock_valid (c : Chunk) (x y z : Z) (m m' : Mesh) :
  chunk_wf c → meshValid m → meshBlock c x y z m = Some m' → meshValid m'.
Proof.
  intros Hwf Hm. unfold meshBlock.
  destruct (getBlock c x y z) as [bt|]; cbn [mbind option_bind]; [|done].
  case_decide; [by intros [= <-]|].
  repeat (rewrite addFaceIfExposed_spec by done; cbn [mbind option_bind]).
  intros [= <-].
  repeat match goal with
         | |- meshValid (if ?b then _ else _) => destruct b
         | |- meshValid (addFace _ _ _ _ _ _ _) => apply addFace_valid; [lia|]
         end; done.
Qed.

Lemma meshLoops_valid (c : Chunk) (m : Mesh) :
  chunk_wf c → meshLoops c = Some m → meshValid m.
Proof.
  intros Hwf. unfold meshLoops, for_range.
  apply for_each_inv; [apply meshValid_nil|].
  intros x m1 m2 _ Hm1. apply for_each_inv; [exact Hm1|].
  intros y m3 m4 _ Hm3. apply for_each_inv; [exact Hm3|].
  intros z m5 m6 _ Hm5. by apply meshBlock_valid.
Qed.

Lemma chunkFaces_bounds (c : Chunk) : 0 ≤ chunkFaces c ≤ 393216.
Proof.
  unfold chunkFaces, CHUNK_SIZE, CHUNK_HEIGHT. split.
  - etrans; [|apply (sumZ_mono (λ _, 0))];
      [rewrite sumZ_range_const by lia; lia|].
    intros x _. cbv beta.
    etrans; [|apply (sumZ_mono (λ _, 0))];
      [rewrite sumZ_range_const by lia; lia|].
    intros y _. cbv beta.
    etrans; [|apply (sumZ_mono (λ _, 0))];
      [rewrite sumZ_range_const by lia; lia|].
    intros z _. apply blockFaces_bounds.
  - etrans; [apply (sumZ_mono _ (λ _, 24576))|];
      [|rewrite sumZ_range_const by lia; lia].
    intros x _. cbv beta.
    etrans; [apply (sumZ_mono _ (λ _, 96))|];
      [|rewrite sumZ_range_const by lia; lia].
    intros y _. cbv beta.
    etrans; [apply (sumZ_mono _ (λ _, 6))|];
      [|rewrite sumZ_range_const by lia; lia].
    intros z _. apply blockFaces_bounds.
Qed.

(** X9: the mesh a rebuild uploads is well formed: the vertex buffer holds
    8 floats for each of the [vertexCount] vertices, the index buffer holds
    [indexCount] indices, every index lies in [[0, vertexCount)], and the
    vertex count never exceeds 4 * 6 * 65536, far below the range of the
    [unsigned int] indices. *)
Theorem mesh_well_formed (c : Chunk) (g : GLState) :
  chunk_wf c →
  ∃ vertices indices c' g',
    meshLoops c = Some (vertices, indices) ∧
    rebuildMesh c g = Some (c', g') ∧
    Z.of_nat (length vertices) = 8 * vertexCount c' ∧
    Z.of_nat (length indices) = indexCount c' ∧
    (∀ i, i ∈ indices → 0 ≤ i < vertexCount c') ∧
    0 ≤ vertexCount c' ≤ 1572864.
Proof.
  intros Hwf.
  destruct (rebuildMesh_spec c g Hwf) as ([vs ids] & Hm & [Hv Hi] & Hr).
  destruct (rebuildMesh_counts c g Hwf)
    as (c' & g' & Hr' & _ & _ & _ & Hvc & Hic).
  pose proof (meshLoops_valid c _ Hwf Hm) as (n & Hn & Hvn & Hin & Hidx).
  pose proof (chunkFaces_bounds c) as Hbound.
  cbn [fst snd length] in *.
  exists vs, ids, c', g'. split; [done|]. split; [done|].
  assert (n = chunkFaces c) as -> by lia.
  split; [lia|]. split; [lia|]. split; [|lia].
  intros i Hi'. specialize (Hidx i Hi'). lia.
Qed.

End MeshValid.

Lemma mesh_well_formed_witness :
  ∃ vertices indices c' g',
    meshLoops (F := toyFloat) oneBlockChunk = Some (vertices, indices) ∧
    rebuildMesh (F := toyFloat) oneBlockChunk glInit = Some (c', g') ∧
    Z.of_nat (length vertices) = 8 * vertexCount c' ∧
    Z.of_nat (length indices) = indexCount c' ∧
    (∀ i, i ∈ indices → 0 ≤ i < vertexCount c') ∧
    0 ≤ vertexCount c' ≤ 1572864.
Proof.
  apply (mesh_well_formed (F := toyFloat) oneBlockChunk glInit).
  apply oneBlockChunk_wf.
Defined.

(** ** Geometry of the emitted faces *)

Section FaceGeometry.
Context {F : FloatOps}.

(** X10: for a cell of the chunk and each of the six faces, read back
    through any decoding [dec] that inverts [f_of_int] on the small integers
    involved: the four vertices of the face are corners of the cell's unit
    cube; all four carry the same normal, which is the unit step from the
    cell to the neighbour that [addFaceIfExposed] tests for that face; and
    both triangles of the face, (0,1,2) and (0,2,3), are wound so that the
    cross product of their edges is that outward normal. *)
Theorem face_geometry (dec : float → Z) (x y z face : Z) (texX texY : float) :
  (∀ n, -1 ≤ n ≤ 256 → dec (f_of_int n) = n) →
  0 ≤ x < 16 → 0 ≤ y < 256 → 0 ≤ z < 16 → 0 ≤ face < 6 →
  ∃ p0 p1 p2 p3 n,
    let vs := faceVertices x y z face texX texY in
    vertexPosition dec vs 0 = Some p0 ∧ vertexPosition dec vs 1 = Some p1 ∧
    vertexPosition dec vs 2 = Some p2 ∧ vertexPosition dec vs 3 = Some p3 ∧
    (∀ k, (k < 4)%nat → vertexNormal dec vs k = Some n) ∧
    n = sub3 (faceNeighbor x y z face) (x, y, z) ∧
    cross3 (sub3 p1 p0) (sub3 p2 p0) = n ∧
    cross3 (sub3 p2 p0) (sub3 p3 p0) = n ∧
    Forall (λ p, ∃ dx dy dz, (dx = 0 ∨ dx = 1) ∧ (dy = 0 ∨ dy = 1) ∧
                   (dz = 0 ∨ dz = 1) ∧ p = (x + dx, y + dy, z + dz))
           [p0; p1; p2; p3].
Proof.
  intros Hdec Hx Hy Hz Hf.
  assert (face = 0 ∨ face = 1 ∨ face = 2 ∨ face = 3 ∨ face = 4 ∨ face = 5)
    as [->|[->|[->|[->|[->| ->]]]]] by lia;
    unfold faceVertices, faceNeighbor, vertex; cbn [Z.eqb Pos.eqb]; int_small;
    unfold vertexPosition, vertexNormal; cbn [Nat.mul Nat.add drop app];
    do 5 eexists; cbv zeta;
    (split; [reflexivity|]); (split; [reflexivity|]);
    (split; [reflexivity|]); (split; [reflexivity|]);
    (split; [intros [|[|[|[|k]]]] Hk; cbn [Nat.mul Nat.add drop app];
             try reflexivity; lia|]);
    rewrite !Hdec by lia;
    (split; [cbn [sub3]; f_equal; [f_equal|]; lia|]);
    (split; [cbn [sub3 cross3]; f_equal; [f_equal|]; lia|]);
    (split; [cbn [sub3 cross3]; f_equal; [f_equal|]; lia|]);
    repeat (apply Forall_cons; split;
            [match goal with
             | |- ∃ dx dy dz, _ ∧ _ ∧ _ ∧ (?a, ?b, ?c) = _ =>
                 exists (a - x), (b - y), (c - z);
                 split; [lia|]; split; [lia|]; split; [lia|];
                 f_equal; [f_equal|]; lia
             end|]);
    apply Forall_nil.
  Unshelve. all: exact I.
Qed.

End FaceGeometry.

Lemma face_geometry_witness :
  ∃ p0 p1 p2 p3 n,
    let vs := faceVertices (F := toyFloat) 1 2 3 3 0 0 in
    vertexPosition (F := toyFloat) (λ q, q) vs 0 = Some p0 ∧
    vertexPosition (F := toyFloat) (λ q, q) vs 1 = Some p1 ∧
    vertexPosition (F := toyFloat) (λ q, q) vs 2 = Some p2 ∧
    vertexPosition (F := toyFloat) (λ q, q) vs 3 = Some p3 ∧
    (∀ k, (k < 4)%nat →
       vertexNormal (F := toyFloat) (λ q, q) vs k = Some n) ∧
    n = sub3 (faceNeighbor 1 2 3 3) (1, 2, 3) ∧
    cross3 (sub3 p1 p0) (sub3 p2 p0) = n ∧
    cross3 (sub3 p2 p0) (sub3 p3 p0) = n ∧
    Forall (λ p, ∃ dx dy dz, (dx = 0 ∨ dx = 1) ∧ (dy = 0 ∨ dy = 1) ∧
                   (dz = 0 ∨ dz = 1) ∧ p = (1 + dx, 2 + dy, 3 + dz))
           [p0; p1; p2; p3].
Proof.
  apply (face_geometry (F := toyFloat) (λ q, q) 1 2 3 3 0 0);
    [intros n _; reflexivity | lia | lia | lia | lia].
Defined.

(** ** Which faces are culled *)

Section Culling.
Context {F : FloatOps}.

(** X11: neighbours are looked up in the same chunk only, so the outward
    face of a cell on the border of the chunk is always emitted: for a cell
    with [z = 15] and the front face, [z = 0] and the back face, [x = 0]
    and the left face, [x = 15] and the right face, [y = 0] and the bottom
    face, or [y = 255] and the top face, [addFaceIfExposed] appends the
    face whatever the chunk holds. *)
Theorem border_face_emitted (c : Chunk) (x y z face : Z) (bt : BlockType)
    (m : Mesh) :
  chunk_wf c → 0 ≤ x < 16 → 0 ≤ y < 256 → 0 ≤ z < 16 →
  (face = 0 ∧ z = 15) ∨ (face = 1 ∧ z = 0) ∨ (face = 2 ∧ x = 0) ∨
  (face = 3 ∧ x = 15) ∨ (face = 4 ∧ y = 0) ∨ (face = 5 ∧ y = 255) →
  neighborIsAir c x y z face = true ∧
  addFaceIfExposed c x y z bt face m = Some (addFace c x y z face bt m).
Proof.
  intros Hwf Hx Hy Hz Hborder.
  assert (neighborIsAir c x y z face = true) as Hair.
  { unfold neighborIsAir.
    destruct Hborder as [[-> ->]|[[-> ->]|[[-> ->]|[[-> ->]|[[-> ->]|[-> ->]]]]]];
      unfold faceNeighbor; cbn [Z.eqb Pos.eqb]; int_small;
      apply bool_decide_eq_true_2, getBlock_out_of_bounds, isInBounds_false;
      lia. }
  split; [done|]. rewrite addFaceIfExposed_spec by done. by rewrite Hair.
Qed.

(** X12: the face between two non-air cells is emitted by neither of them:
    if a cell and its neighbour across face [face] both hold a non-air
    block, then stepping back from the neighbour across the opposite face
    returns to the cell, and [addFaceIfExposed] leaves the mesh unchanged
    for the cell's face and for the neighbour's opposite face. *)
Theorem shared_face_culled (c : Chunk) (x y z face nx ny nz : Z)
    (bt bt' : BlockType) (m : Mesh) :
  chunk_wf c → 0 ≤ face < 6 →
  faceNeighbor x y z face = (nx, ny, nz) →
  getBlock c x y z ≠ Some Air → getBlock c nx ny nz ≠ Some Air →
  faceNeighbor nx ny nz (oppositeFace face) = (x, y, z) ∧
  addFaceIfExposed c x y z bt face m = Some m ∧
  addFaceIfExposed c nx ny nz bt' (oppositeFace face) m = Some m.
Proof.
  intros Hwf Hf Hn Hsolid Hsolid'.
  destruct (getBlock_solid_in_bounds c x y z Hsolid) as (Hx & Hy & Hz).
  destruct (getBlock_solid_in_bounds c nx ny nz Hsolid') as (Hnx & Hny & Hnz).
  assert (faceNeighbor nx ny nz (oppositeFace face) = (x, y, z)) as Hback.
  { revert Hn.
    assert (face = 0 ∨ face = 1 ∨ face = 2 ∨ face = 3 ∨ face = 4 ∨ face = 5)
      as [->|[->|[->|[->|[->| ->]]]]] by lia;
      unfold faceNeighbor, oppositeFace; cbn [Z.eqb Pos.eqb]; int_small;
      intros [= <- <- <-]; int_small; rewrite !pair_equal_spec; lia. }
  split; [done|].
  rewrite !addFaceIfExposed_spec by done.
  unfold neighborIsAir. rewrite Hn, Hback.
  by rewrite !bool_decide_eq_false_2 by done.
Qed.

(** X13: the texture coordinates of an emitted face do not depend on the
    face: whichever of the six faces is added, its four vertices carry
    [(u, v)], [(u+1, v)], [(u+1, v+1)], [(u, v+1)] in this order, where
    [(u, v)] is the atlas origin [getTextureCoord] gives for the block type;
    grass and every type other than dirt and stone share the origin of
    tile 0. *)
Theorem face_texture_coords (c : Chunk) (x y z face : Z) (bt : BlockType)
    (vertices : list float) (indices : list Z) :
  0 ≤ face < 6 →
  let uv := getTextureCoord c bt face in
  let vs := drop (length vertices)
              (fst (addFace c x y z face bt (vertices, indices))) in
  uv = getTextureCoord c bt 0 ∧
  (bt ≠ Dirt → bt ≠ Stone → uv = getTextureCoord c Grass 0) ∧
  vertexTex vs 0 = Some (fst uv, snd uv) ∧
  vertexTex vs 1 = Some (f_add (fst uv) (f_of_int 1), snd uv) ∧
  vertexTex vs 2 =
    Some (f_add (fst uv) (f_of_int 1), f_add (snd uv) (f_of_int 1)) ∧
  vertexTex vs 3 = Some (fst uv, f_add (snd uv) (f_of_int 1)).
Proof.
  intros Hf uv vs. subst uv vs. unfold addFace. cbn [fst].
  rewrite drop_app_length.
  split; [done|]. split; [by destruct bt|].
  assert (face = 0 ∨ face = 1 ∨ face = 2 ∨ face = 3 ∨ face = 4 ∨ face = 5)
    as [->|[->|[->|[->|[->| ->]]]]] by lia;
    repeat split; reflexivity.
Qed.

End Culling.

Lemma border_face_emitted_witness :
  neighborIsAir oneBlockChunk 0 64 5 2 = true ∧
  addFaceIfExposed (F := toyFloat) oneBlockChunk 0 64 5 Stone 2 ([], []) =
    Some (addFace (F := toyFloat) oneBlockChunk 0 64 5 2 Stone ([], [])).
Proof.
  apply (border_face_emitted (F := toyFloat) oneBlockChunk 0 64 5 2 Stone ([], []));
    [apply oneBlockChunk_wf | lia | lia | lia | right; right; left; lia].
Defined.

Lemma shared_face_culled_witness :
  faceNeighbor 5 65 5 (oppositeFace 5) = (5, 64, 5) ∧
  addFaceIfExposed (F := toyFloat) twoBlockChunk 5 64 5 Stone 5 ([], []) =
    Some ([], []) ∧
  addFaceIfExposed (F := toyFloat) twoBlockChunk 5 65 5 Dirt (oppositeFace 5)
    ([], []) = Some ([], []).
Proof.
  apply (shared_face_culled (F := toyFloat) twoBlockChunk 5 64 5 5 5 65 5
           Stone Dirt ([], [])).
  - apply twoBlockChunk_wf.
  - lia.
  - reflexivity.
  - rewrite twoBlockChunk_other, oneBlockChunk_stone; congruence.
  - rewrite twoBlockChunk_dirt. congruence.
Defined.

Lemma face_texture_coords_witness :
  let uv := getTextureCoord (F := toyFloat) oneBlockChunk Stone 4 in
  let vs := drop (length (@nil Z))
              (fst (addFace (F := toyFloat) oneBlockChunk 5 64 5 4 Stone
                      ([], []))) in
  uv = getTextureCoord (F := toyFloat) oneBlockChunk Stone 0 ∧
  (Stone ≠ Dirt → Stone ≠ Stone →
     uv = getTextureCoord (F := toyFloat) oneBlockChunk Grass 0) ∧
  vertexTex (F := toyFloat) vs 0 = Some (fst uv, snd uv) ∧
  vertexTex (F := toyFloat) vs 1 = Some (fst uv + 1, snd uv) ∧
  vertexTex (F := toyFloat) vs 2 = Some (fst uv + 1, snd uv + 1) ∧
  vertexTex (F := toyFloat) vs 3 = Some (fst uv, snd uv + 1).
Proof.
  apply (face_texture_coords (F := toyFloat) oneBlockChunk 5 64 5 4 Stone [] []).
  lia.
Defined.

(** ** The mesh is a function of the blocks *)

Lemma for_each_ext {S A} (l : list A) (body1 body2 : A → S → option S) (s : S) :
  (∀ a s, a ∈ l → body1 a s = body2 a s) →
  for_each l body1 s = for_each l body2 s.
Proof.
  revert s. induction l as [|a l IH]; intros s Hext; simpl; [done|].
  rewrite Hext by left. destruct (body2 a s); [|done].
  apply IH. intros a' s' Ha'. apply Hext. by right.
Qed.

Lemma sumZ_ext {A} (f g : A → Z) (l : list A) :
  (∀ a, a ∈ l → f a = g a) → sumZ f l = sumZ g l.
Proof.
  induction l as [|a l IH]; intros Hfg; simpl; [done|].
  rewrite Hfg by left. rewrite IH; [done|]. intros b Hb. apply Hfg. by right.
Qed.

Lemma getBlock_blocks (c1 c2 : Chunk) (x y z : Z) :
  blocks c1 = blocks c2 → getBlock c1 x y z = getBlock c2 x y z.
Proof. intros H. unfold getBlock. by rewrite H. Qed.

Lemma neighborIsAir_blocks (c1 c2 : Chunk) (x y z face : Z) :
  blocks c1 = blocks c2 → neighborIsAir c1 x y z face = neighborIsAir c2 x y z face.
Proof.
  intros H. unfold neighborIsAir.
  destruct (faceNeighbor x y z face) as [[nx ny] nz].
  by rewrite (getBlock_blocks c1 c2).
Qed.

Lemma blockFaces_blocks (c1 c2 : Chunk) (x y z : Z) :
  blocks c1 = blocks c2 → blockFaces c1 x y z = blockFaces c2 x y z.
Proof.
  intros H. unfold blockFaces. rewrite (getBlock_blocks c1 c2) by done.
  case_decide; [done|]. apply sumZ_ext. intros f _.
  by rewrite (neighborIsAir_blocks c1 c2).
Qed.

Lemma chunkFaces_blocks (c1 c2 : Chunk) :
  blocks c1 = blocks c2 → chunkFaces c1 = chunkFaces c2.
Proof.
  intros H. unfold chunkFaces.
  apply sumZ_ext; intros x _. apply sumZ_ext; intros y _.
  apply sumZ_ext; intros z _. by apply blockFaces_blocks.
Qed.

Section MeshOfBlocks.
Context {F : FloatOps}.

Lemma addFaceIfExposed_blocks (c1 c2 : Chunk) (x y z : Z) (bt : BlockType)
    (face : Z) (m : Mesh) :
  blocks c1 = blocks c2 →
  addFaceIfExposed c1 x y z bt face m = addFaceIfExposed c2 x y z bt face m.
Proof.
  intros H. unfold addFaceIfExposed.
  destruct (faceNeighbor x y z face) as [[nx ny] nz].
  by rewrite (getBlock_blocks c1 c2).
Qed.

Lemma meshBlock_blocks (c1 c2 : Chunk) (x y z : Z) (m : Mesh) :
  blocks c1 = blocks c2 → meshBlock c1 x y z m = meshBlock c2 x y z m.
Proof.
  intros H. unfold meshBlock. rewrite (getBlock_blocks c1 c2) by done.
  destruct (getBlock c2 x y z) as [bt|]; cbn [mbind option_bind]; [|done].
  case_decide; [done|].
  rewrite (addFaceIfExposed_blocks c1 c2) by done.
  destruct (addFaceIfExposed c2 x y z bt 0 m) as [m0|];
    cbn [mbind option_bind]; [|done].
  rewrite (addFaceIfExposed_blocks c1 c2) by done.
  destruct (addFaceIfExposed c2 x y z bt 1 m0) as [m1|];
    cbn [mbind option_bind]; [|done].
  rewrite (addFaceIfExposed_blocks c1 c2) by done.
  destruct (addFaceIfExposed c2 x y z bt 2 m1) as [m2|];
    cbn [mbind option_bind]; [|done].
  rewrite (addFaceIfExposed_blocks c1 c2) by done.
  destruct (addFaceIfExposed c2 x y z bt 3 m2) as [m3|];
    cbn [mbind option_bind]; [|done].
  rewrite (addFaceIfExposed_blocks c1 c2) by done.
  destruct (addFaceIfExposed c2 x y z bt 4 m3) as [m4|];
    cbn [mbind option_bind]; [|done].
  by apply addFaceIfExposed_blocks.
Qed.

Lemma meshLoops_blocks (c1 c2 : Chunk) :
  blocks c1 = blocks c2 → meshLoops c1 = meshLoops c2.
Proof.
  intros H. unfold meshLoops, for_range.
  apply for_each_ext; intros x m _. apply for_each_ext; intros y m' _.
  apply for_each_ext; intros z m'' _. by apply meshBlock_blocks.
Qed.

(** ** The invariant of a chunk and its OpenGL objects *)

Lemma newChunk_inv (cx cy cz w : Z) (g : GLState) :
  0 ≤ gl_vertex_arrays g → 0 ≤ gl_buffers g →
  chunkInv (newChunk cx cy cz w, g).
Proof.
  intros Hva Hbu. unfold chunkInv.
  split; [apply newChunk_wf|]. split; [done|]. split; [done|].
  split; intros Hb; exfalso; revert Hb; by change (false = true → False).
Qed.

Lemma rebuildMesh_inv (c : Chunk) (g : GLState) :
  chunkInv (c, g) →
  ∃ c' g', rebuildMesh c g = Some (c', g') ∧ chunkInv (c', g') ∧
    blocks c' = blocks c ∧ meshDirty c' = false ∧ meshBuilt c' = true ∧
    (meshBuilt c = true →
       vao c' = vao c ∧ vbo c' = vbo c ∧ ebo c' = ebo c ∧
       gl_vertex_arrays g' = gl_vertex_arrays g ∧ gl_buffers g' = gl_buffers g).
Proof.
  intros (Hwf & Hva & Hbu & Hnames & _).
  destruct (rebuildMesh_spec c g Hwf) as (m & Hm & [Hv Hi] & Hr).
  exists (fst (uploadMesh c g m)), (snd (uploadMesh c g m)).
  split; [rewrite Hr; by destruct (uploadMesh c g m)|].
  pose proof (uploadMesh_data c g m) as Hdata. cbv zeta in Hdata.
  destruct (uploadMesh_names c g m) as [Hva' Hbu'].
  revert Hdata. rewrite uploadMesh_chunk.
  cbn [blocks meshDirty meshBuilt vao vbo ebo vertexCount indexCount].
  set (vb := if meshBuilt c then vbo c else gl_buffers g + 1).
  set (eb := if meshBuilt c then ebo c else gl_buffers g + 1 + 1).
  intros Hdata.
  assert (0 < vb ≤ gl_buffers (snd (uploadMesh c g m)) ∧
          0 < eb ≤ gl_buffers (snd (uploadMesh c g m)) ∧ vb ≠ eb) as Hn.
  { rewrite Hbu'. subst vb eb.
    destruct (meshBuilt c); [by apply Hnames|clear -Hbu; lia]. }
  destruct Hdata as [Hd1 Hd2]; [clear -Hn; lia|clear -Hn; lia|tauto|].
  split; [|split; [done|]; split; [done|]; split; [done|]].
  - unfold chunkInv.
    cbn [blocks meshDirty meshBuilt vao vbo ebo vertexCount indexCount].
    split; [exact Hwf|].
    split; [rewrite Hva'; clear -Hva; destruct (meshBuilt c); lia|].
    split; [rewrite Hbu'; clear -Hbu; destruct (meshBuilt c); lia|].
    split; [intros _; rewrite Hbu' in Hn; rewrite Hbu'; exact Hn|].
    intros _ _. exists m.
    match goal with |- meshLoops ?c' = _ ∧ _ =>
      rewrite (meshLoops_blocks c' c eq_refl);
      rewrite (chunkFaces_blocks c' c eq_refl)
    end.
    split; [done|]. split; [exact Hd1|]. split; [exact Hd2|].
    rewrite Hv, Hi. cbn [fst snd length]. split; [|lia].
    replace (Z.of_nat 0 + 32 * chunkFaces c) with (4 * chunkFaces c * 8) by lia.
    by rewrite Z.div_mul.
  - intros Hb. subst vb eb. rewrite Hva', Hbu', Hb. done.
Qed.

Lemma buildMesh_inv (c : Chunk) (g : GLState) :
  chunkInv (c, g) →
  ∃ c' g', buildMesh c g = Some (c', g') ∧ chunkInv (c', g') ∧
    blocks c' = blocks c ∧ meshDirty c' = false ∧ meshBuilt c' = true.
Proof.
  intros Hinv. unfold buildMesh.
  destruct (negb (meshDirty c) && meshBuilt c) eqn:Hguard.
  - apply andb_true_iff in Hguard as [Hd%negb_true_iff Hb].
    by exists c, g.
  - destruct (rebuildMesh_inv c g Hinv) as (c' & g' & Hr & Hinv' & ? & ? & ? & _).
    by exists c', g'.
Qed.

Lemma update_inv (c : Chunk) (g : GLState) :
  chunkInv (c, g) →
  ∃ c' g', update c g = Some (c', g') ∧ chunkInv (c', g') ∧
    blocks c' = blocks c ∧ meshDirty c' = false.
Proof.
  intros Hinv. unfold update. destruct (meshDirty c) eqn:Hd.
  - destruct (buildMesh_inv c g Hinv) as (c' & g' & Hb & Hinv' & ? & ? & _).
    by exists c', g'.
  - by exists c, g.
Qed.

Lemma sameFrame_inv (c c' : Chunk) (g : GLState) :
  chunkInv (c, g) → chunk_wf c' → sameFrame c c' → meshDirty c' = true →
  chunkInv (c', g).
Proof.
  intros (_ & Hva & Hbu & Hnames & _) Hwf' Hframe Hd. unfold sameFrame in Hframe.
  destruct Hframe as (_ & _ & _ & _ & Hb & _ & Hvbo & Hebo & _).
  unfold chunkInv. split; [done|]. split; [done|]. split; [done|]. split.
  - rewrite Hb, Hvbo, Hebo. exact Hnames.
  - intros _ Hclean. congruence.
Qed.

Lemma setBlock_inv (c : Chunk) (g : GLState) (x y z : Z) (T : BlockType) :
  chunkInv (c, g) →
  ∃ c', setBlock c x y z T = Some c' ∧ chunkInv (c', g).
Proof.
  intros Hinv. pose proof Hinv as (Hwf & _).
  destruct (isInBounds x y z) eqn:Hb.
  - pose proof (setBlock_in_bounds c x y z T Hwf Hb) as Hset.
    eexists. split; [exact Hset|].
    eapply sameFrame_inv; [exact Hinv| | |done].
    + by eapply setBlock_wf.
    + by eapply setBlock_sameFrame.
  - exists c. split; [by apply setBlock_out_of_bounds|done].
Qed.

Lemma generate_inv (c : Chunk) (g : GLState) :
  chunkInv (c, g) → ∃ c', generate c = Some c' ∧ chunkInv (c', g).
Proof.
  intros Hinv. pose proof Hinv as (Hwf & _).
  destruct (generate_position c Hwf) as (c' & Hg & Hwf' & Hd & _).
  exists c'. split; [done|].
  eapply sameFrame_inv; [exact Hinv|done| |done]. by apply generate_sameFrame.
Qed.

Lemma markDirty_inv (c : Chunk) (g : GLState) :
  chunkInv (c, g) → chunkInv (markDirty c, g).
Proof.
  intros Hinv. pose proof Hinv as (Hwf & _).
  eapply sameFrame_inv; [exact Hinv|exact Hwf| |done].
  unfold sameFrame, markDirty, set_meshDirty. cbn. tauto.
Qed.

Lemma render_state (c : Chunk) (g : GLState) :
  gl_vertex_arrays (fst (render c g)) = gl_vertex_arrays g ∧
  gl_buffers (fst (render c g)) = gl_buffers g ∧
  gl_buffer_data (fst (render c g)) = gl_buffer_data g ∧
  gl_bound_vertex_array (fst (render c g)) =
    (if meshBuilt c then 0 else gl_bound_vertex_array g).
Proof. unfold render. by destruct (meshBuilt c). Qed.

Lemma render_inv (c : Chunk) (g : GLState) :
  chunkInv (c, g) → chunkInv (c, fst (render c g)).
Proof.
  intros (Hwf & Hva & Hbu & Hnames & Hclean).
  destruct (render_state c g) as (Hva' & Hbu' & Hdata & _).
  unfold chunkInv, uploaded. rewrite Hva', Hbu', Hdata. done.
Qed.

Lemma cleanup_inv (c : Chunk) (g : GLState) :
  chunkInv (c, g) → chunkInv (cleanup c g).
Proof.
  intros Hinv. unfold cleanup. destruct (meshBuilt c) eqn:Hb; [|done].
  destruct Hinv as (Hwf & Hva & Hbu & _).
  unfold chunkInv. cbn [meshBuilt]. split; [exact Hwf|].
  split; [done|]. split; [done|]. split; intros [=].
Qed.

Lemma runOp_inv (op : ChunkOp) (s : Chunk * GLState) :
  chunkInv s → ∃ s', runOp op s = Some s' ∧ chunkInv s'.
Proof.
  destruct s as [c g]. intros Hinv. destruct op; cbn [runOp].
  - destruct (setBlock_inv c g x y z type Hinv) as (c' & -> & Hinv').
    by eexists.
  - destruct (generate_inv c g Hinv) as (c' & -> & Hinv'). by eexists.
  - eexists. split; [done|]. by apply markDirty_inv.
  - destruct (buildMesh_inv c g Hinv) as (c' & g' & -> & Hinv' & _).
    by eexists.
  - destruct (update_inv c g Hinv) as (c' & g' & -> & Hinv' & _). by eexists.
  - eexists. split; [done|]. by apply render_inv.
  - eexists. split; [done|]. by apply cleanup_inv.
Qed.

(** X14: no sequence of calls on a chunk can go wrong: starting from a
    state in which the storage has its size, a built chunk holds two
    distinct generated buffer names, and a chunk that is built and not
    dirty has its mesh in those buffers, every sequence of [setBlock],
    [generate], [markDirty], [buildMesh], [update], [render] and [cleanup]
    calls - with any coordinates, in or out of bounds - runs to the end
    without indexing outside the block vector, and ends in such a state
    again.  A new chunk is such a state. *)
Theorem chunk_calls_safe (ops : list ChunkOp) (s : Chunk * GLState) :
  chunkInv s → ∃ s', runOps ops s = Some s' ∧ chunkInv s'.
Proof.
  unfold runOps. revert s. induction ops as [|op ops IH]; intros s Hinv.
  - by exists s.
  - destruct (runOp_inv op s Hinv) as (s1 & Hs1 & Hinv1).
    destruct (IH s1 Hinv1) as (s' & Hs' & Hinv').
    exists s'. cbn [for_each]. by rewrite Hs1.
Qed.

End MeshOfBlocks.

Lemma chunk_calls_safe_witness :
  ∃ s', runOps (F := toyFloat)
          [OpGenerate; OpUpdate; OpSetBlock 3 200 4 Stone;
           OpSetBlock 16 0 (-1) Dirt; OpRender; OpBuildMesh; OpCleanup;
           OpUpdate; OpMarkDirty; OpBuildMesh; OpRender]
          (newChunk 2 0 (-7) 0, glInit) = Some s' ∧
        chunkInv (F := toyFloat) s'.
Proof.
  apply (chunk_calls_safe (F := toyFloat)).
  apply (newChunk_inv (F := toyFloat)); cbn; lia.
Defined.

(** ** Editing, updating, drawing and releasing *)

Section Lifecycle.
Context {F : FloatOps}.

(** X15: an edit followed by [update] brings the mesh up to date: from a
    state satisfying the chunk invariant, an in-bounds [setBlock] and then
    [update] leave a clean, built chunk with the edited blocks, whose
    buffers hold the mesh of those blocks and whose counts are 4 vertices
    and 6 indices per exposed face of those blocks; a chunk that was
    already built keeps its three OpenGL names and nothing is generated. *)
Theorem edit_then_update (c : Chunk) (g : GLState) (x y z : Z) (T : BlockType) :
  chunkInv (c, g) → 0 ≤ x < 16 → 0 ≤ y < 256 → 0 ≤ z < 16 →
  ∃ c1 c2 g2 m,
    setBlock c x y z T = Some c1 ∧ update c1 g = Some (c2, g2) ∧
    blocks c2 = blocks c1 ∧ getBlock c2 x y z = Some T ∧
    meshDirty c2 = false ∧ meshBuilt c2 = true ∧
    meshLoops c1 = Some m ∧
    uploaded g2 (vbo c2) = Some (FloatData (fst m)) ∧
    uploaded g2 (ebo c2) = Some (UIntData (snd m)) ∧
    vertexCount c2 = 4 * chunkFaces c1 ∧ indexCount c2 = 6 * chunkFaces c1 ∧
    (meshBuilt c = true →
       vao c2 = vao c ∧ vbo c2 = vbo c ∧ ebo c2 = ebo c ∧
       gl_vertex_arrays g2 = gl_vertex_arrays g ∧ gl_buffers g2 = gl_buffers g).
Proof.
  intros Hinv Hx Hy Hz. pose proof Hinv as (Hwf & _).
  assert (isInBounds x y z = true) as Hb by (by apply isInBounds_true).
  destruct (setBlock_inv c g x y z T Hinv) as (c1 & Hset & Hinv1).
  pose proof (setBlock_sameFrame _ _ _ _ _ _ Hset) as Hframe.
  assert (meshDirty c1 = true) as Hd1.
  { rewrite setBlock_in_bounds in Hset by done. by injection Hset as <-. }
  destruct (rebuildMesh_inv c1 g Hinv1)
    as (c2 & g2 & Hr & Hinv2 & Hblocks & Hd2 & Hb2 & Hkeep).
  destruct Hinv2 as (_ & _ & _ & _ & Hclean).
  destruct (Hclean Hb2 Hd2) as (m & Hm & Hu1 & Hu2 & Hvc & Hic).
  exists c1, c2, g2, m. split; [done|]. split.
  { unfold update. rewrite Hd1. rewrite buildMesh_stale by (by left). done. }
  split; [done|]. split.
  { rewrite (getBlock_blocks c2 c1) by done. by eapply getBlock_setBlock_eq. }
  split; [done|]. split; [done|].
  split; [by rewrite <- (meshLoops_blocks c2 c1)|].
  split; [done|]. split; [done|].
  split; [by rewrite <- (chunkFaces_blocks c2 c1)|].
  split; [by rewrite <- (chunkFaces_blocks c2 c1)|].
  intros Hbuilt. unfold sameFrame in Hframe.
  destruct Hframe as (_ & _ & _ & _ & Hfb & Hfvao & Hfvbo & Hfebo & _).
  destruct Hkeep as (? & ? & ? & ? & ?); [congruence|].
  repeat split; congruence.
Qed.

(** X16: [render] draws what the last build stored, whatever happened to
    the blocks since: on a chunk that was never built it issues no call and
    leaves the OpenGL state alone; on a built chunk it issues exactly one
    draw call, on the chunk's vertex array and with [indexCount] indices,
    leaves no vertex array bound and changes no buffer; a [setBlock] in
    between does not change the call, and for a chunk that is built and not
    dirty the call draws 6 indices per exposed face of the current
    blocks. *)
Theorem render_draws_last_build (c : Chunk) (g : GLState) :
  chunkInv (c, g) →
  (meshBuilt c = false → render c g = (g, [])) ∧
  (meshBuilt c = true →
     snd (render c g) = [mkDraw (vao c) (indexCount c)] ∧
     gl_bound_vertex_array (fst (render c g)) = 0 ∧
     gl_buffer_data (fst (render c g)) = gl_buffer_data g ∧
     (meshDirty c = false → indexCount c = 6 * chunkFaces c)) ∧
  (∀ x y z T c1, setBlock c x y z T = Some c1 → render c1 g = render c g).
Proof.
  intros (_ & _ & _ & _ & Hclean). split; [|split].
  - intros Hb. unfold render. by rewrite Hb.
  - intros Hb. unfold render. rewrite Hb. cbn.
    split; [done|]. split; [done|]. split; [done|].
    intros Hd. by destruct (Hclean Hb Hd) as (m & _ & _ & _ & _ & ?).
  - intros x y z T c1 Hset.
    pose proof (setBlock_sameFrame _ _ _ _ _ _ Hset) as Hframe.
    unfold sameFrame in Hframe.
    destruct Hframe as (_ & _ & _ & _ & Hb & Hvao & _ & _ & _ & Hic).
    unfold render. by rewrite Hb, Hvao, Hic.
Qed.

(** X17: [cleanup] releases the buffers of a built chunk and only marks
    the chunk unbuilt: the stores of its two buffers are gone, blocks,
    dirty flag and the stale names in the chunk are as before; a second
    [cleanup] and a [render] do nothing; [buildMesh] would rebuild; but
    [update], which looks at the dirty flag only, does nothing when the
    chunk was clean, so the chunk stays unbuilt until it is marked dirty.
    On a chunk that was never built [cleanup] does nothing at all. *)
Theorem cleanup_releases (c : Chunk) (g : GLState) :
  chunkInv (c, g) →
  (meshBuilt c = false → cleanup c g = (c, g)) ∧
  (meshBuilt c = true →
     let c' := fst (cleanup c g) in
     let g' := snd (cleanup c g) in
     isLoaded c' = false ∧
     uploaded g' (vbo c) = None ∧ uploaded g' (ebo c) = None ∧
     blocks c' = blocks c ∧ meshDirty c' = meshDirty c ∧
     vao c' = vao c ∧ vbo c' = vbo c ∧ ebo c' = ebo c ∧
     gl_vertex_arrays g' = gl_vertex_arrays g ∧ gl_buffers g' = gl_buffers g ∧
     cleanup c' g' = (c', g') ∧
     render c' g' = (g', []) ∧
     buildMesh c' g' = rebuildMesh c' g' ∧
     (meshDirty c = false → update c' g' = Some (c', g'))).
Proof.
  intros Hinv. split.
  - intros Hb. unfold cleanup. by rewrite Hb.
  - intros Hb c' g'. subst c' g'. unfold cleanup. rewrite Hb. cbn [fst snd].
    unfold isLoaded, uploaded, glDeleteVertexArrays, glDeleteBuffers, render,
      update.
    cbn [meshBuilt meshDirty blocks vao vbo ebo gl_buffer_data gl_vertex_arrays
         gl_buffers negb].
    split; [done|].
    split; [destruct (decide (vbo c = ebo c)) as [->|];
            [apply lookup_delete_eq
            |rewrite lookup_delete_ne by done; apply lookup_delete_eq]|].
    split; [apply lookup_delete_eq|].
    split; [done|]. split; [done|]. split; [done|]. split; [done|].
    split; [done|]. split; [done|]. split; [done|]. split; [done|].
    split; [done|].
    split; [apply buildMesh_stale; by right|].
    by intros ->.
Qed.


End Lifecycle.

Lemma edit_then_update_witness :
  ∃ c1 c2 g2 m,
    setBlock (newChunk 0 0 0 0) 5 64 5 Stone = Some c1 ∧
    update (F := toyFloat) c1 glInit = Some (c2, g2) ∧
    blocks c2 = blocks c1 ∧ getBlock c2 5 64 5 = Some Stone ∧
    meshDirty c2 = false ∧ meshBuilt c2 = true ∧
    meshLoops (F := toyFloat) c1 = Some m ∧
    uploaded g2 (vbo c2) = Some (FloatData (fst m)) ∧
    uploaded g2 (ebo c2) = Some (UIntData (snd m)) ∧
    vertexCount c2 = 4 * chunkFaces c1 ∧ indexCount c2 = 6 * chunkFaces c1 ∧
    (meshBuilt (newChunk 0 0 0 0) = true →
       vao c2 = vao (newChunk 0 0 0 0) ∧ vbo c2 = vbo (newChunk 0 0 0 0) ∧
       ebo c2 = ebo (newChunk 0 0 0 0) ∧
       gl_vertex_arrays g2 = gl_vertex_arrays (glInit (F := toyFloat)) ∧
       gl_buffers g2 = gl_buffers (glInit (F := toyFloat))).
Proof.
  apply (edit_then_update (F := toyFloat) (newChunk 0 0 0 0) glInit 5 64 5 Stone);
    [apply (newChunk_inv (F := toyFloat)); cbn; lia | lia | lia | lia].
Defined.

Lemma oneBlockChunk_inv : chunkInv (F := toyFloat) (oneBlockChunk, glInit).
Proof.
  destruct (setBlock_inv (F := toyFloat) (newChunk 0 0 0 0) glInit 5 64 5 Stone)
    as (c' & Hset & Hinv); [apply (newChunk_inv (F := toyFloat)); cbn; lia|].
  pose proof (eq_trans (eq_sym oneBlockChunk_eq) Hset) as Heq.
  apply (inj Some) in Heq. rewrite Heq. exact Hinv.
Qed.

Lemma oneBlockChunk_faces : chunkFaces oneBlockChunk = 6.
Proof.
  rewrite (chunkFaces_single oneBlockChunk 5 64 5);
    [|lia|lia|lia|apply oneBlockChunk_air].
  apply blockFaces_alone; [|apply oneBlockChunk_air].
  rewrite oneBlockChunk_stone. discriminate.
Qed.

Lemma render_draws_last_build_witness :
  ∃ c g, buildMesh (F := toyFloat) oneBlockChunk glInit = Some (c, g) ∧
    snd (render c g) = [mkDraw (vao c) (indexCount c)] ∧
    gl_bound_vertex_array (fst (render c g)) = 0 ∧
    gl_buffer_data (fst (render c g)) = gl_buffer_data g ∧
    indexCount c = 36.
Proof.
  destruct (buildMesh_inv (F := toyFloat) oneBlockChunk glInit oneBlockChunk_inv)
    as (c & g & Hb & Hinv & Hblocks & Hd & Hbuilt).
  exists c, g. split; [exact Hb|].
  destruct (render_draws_last_build (F := toyFloat) c g Hinv)
    as (_ & Hdraw & _).
  destruct (Hdraw Hbuilt) as (H1 & H2 & H3 & H4).
  split; [exact H1|]. split; [exact H2|]. split; [exact H3|].
  rewrite (H4 Hd), (chunkFaces_blocks c oneBlockChunk Hblocks),
    oneBlockChunk_faces. reflexivity.
Defined.

Lemma cleanup_releases_witness :
  ∃ c g, buildMesh (F := toyFloat) oneBlockChunk glInit = Some (c, g) ∧
    let c' := fst (cleanup c g) in
    let g' := snd (cleanup c g) in
    isLoaded c' = false ∧
    uploaded g' (vbo c) = None ∧ uploaded g' (ebo c) = None ∧
    cleanup c' g' = (c', g') ∧ render c' g' = (g', []) ∧
    update (F := toyFloat) c' g' = Some (c', g').
Proof.
  destruct (buildMesh_inv (F := toyFloat) oneBlockChunk glInit oneBlockChunk_inv)
    as (c & g & Hb & Hinv & Hblocks & Hd & Hbuilt).
  exists c, g. split; [exact Hb|].
  destruct (cleanup_releases (F := toyFloat) c g Hinv) as (_ & Hrel).
  destruct (Hrel Hbuilt)
    as (H1 & H2 & H3 & _ & _ & _ & _ & _ & _ & _ & H4 & H5 & _ & H6).
  cbv zeta. split; [exact H1|]. split; [exact H2|]. split; [exact H3|].
  split; [exact H4|]. split; [exact H5|]. exact (H6 Hd).
Defined.

(** ** The header's index needs the header's bounds check *)

Lemma GetIndex_wrap (x y z : Z) :
  ChunkH.GetIndex x y z = wrap_int (y * 256 + z * 16 + x).
Proof.
  unfold ChunkH.GetIndex, int_add, int_mul.
  unfold ChunkH.CHUNK_SIZE_X, ChunkH.CHUNK_SIZE_Z.
  apply wrap_int_congr. etrans; [unwrap_mod|]. f_equal.
Qed.

Lemma wrap_int_add_r (a b : Z) : wrap_int (a + wrap_int b) = wrap_int (a + b).
Proof.
  apply wrap_int_congr. apply add_mod_congr; [done|apply wrap_int_mod].
Qed.

Lemma wrap_int_add_mul_r (a b k : Z) :
  wrap_int (a + wrap_int b * k) = wrap_int (a + b * k).
Proof.
  apply wrap_int_congr. apply add_mod_congr; [done|].
  apply mul_mod_congr; [apply wrap_int_mod|done].
Qed.

Lemma GetIndex_step_x (x y z : Z) :
  ChunkH.GetIndex (int_add x 16) y z = ChunkH.GetIndex x y (int_add z 1).
Proof.
  rewrite !GetIndex_wrap. unfold int_add. rewrite wrap_int_add_r.
  replace (y * 256 + wrap_int (z + 1) * 16 + x)
    with (y * 256 + x + wrap_int (z + 1) * 16) by lia.
  rewrite wrap_int_add_mul_r. f_equal. lia.
Qed.

Lemma GetIndex_step_z (x y z : Z) :
  ChunkH.GetIndex x y (int_add z 16) = ChunkH.GetIndex x (int_add y 1) z.
Proof.
  rewrite !GetIndex_wrap. unfold int_add.
  replace (y * 256 + wrap_int (z + 16) * 16 + x)
    with (y * 256 + x + wrap_int (z + 16) * 16) by lia.
  replace (wrap_int (y + 1) * 256 + z * 16 + x)
    with (z * 16 + x + wrap_int (y + 1) * 256) by lia.
  rewrite !wrap_int_add_mul_r. f_equal. lia.
Qed.

(** X19: for the block array of [chunk.h], [IsInBounds] is what makes
    [GetIndex] safe and unambiguous: an in-bounds coordinate indexes inside
    the [CHUNK_VOLUME] slots, but the index alone does not tell whether a
    coordinate was in bounds - stepping [x] by 16 gives the index of the
    next [z] row and stepping [z] by 16 the index of the next [y] layer, so
    an out-of-bounds [(x + 16, y, z)] with [z < 15] lands on the slot of the
    in-bounds cell [(x, y, z + 1)]. *)
Theorem header_index_guard :
  (∀ x y z, ChunkH.IsInBounds x y z = true →
     0 ≤ ChunkH.GetIndex x y z < ChunkH.CHUNK_VOLUME) ∧
  (∀ x y z, ChunkH.GetIndex (int_add x 16) y z = ChunkH.GetIndex x y (int_add z 1)) ∧
  (∀ x y z, ChunkH.GetIndex x y (int_add z 16) = ChunkH.GetIndex x (int_add y 1) z) ∧
  (∀ x y z, 0 ≤ x < 16 → 0 ≤ y < 256 → 0 ≤ z < 15 →
     ChunkH.IsInBounds (x + 16) y z = false ∧
     ChunkH.IsInBounds x y (z + 1) = true ∧
     ChunkH.GetIndex (x + 16) y z = ChunkH.GetIndex x y (z + 1) ∧
     0 ≤ ChunkH.GetIndex (x + 16) y z < ChunkH.CHUNK_VOLUME).
Proof.
  split; [|split; [exact GetIndex_step_x|split; [exact GetIndex_step_z|]]].
  - intros x y z Hb. rewrite IsInBounds_header in Hb.
    rewrite GetIndex_getBlockIndex. change ChunkH.CHUNK_VOLUME with 65536.
    by apply getBlockIndex_range.
  - intros x y z Hx Hy Hz.
    assert (ChunkH.GetIndex (x + 16) y z = ChunkH.GetIndex x y (z + 1)) as Heq.
    { pose proof (GetIndex_step_x x y z) as Hstep. revert Hstep.
      rewrite (int_add_small x 16) by (unfold INT_MIN, INT_MAX; lia).
      rewrite (int_add_small z 1) by (unfold INT_MIN, INT_MAX; lia).
      intros Hstep. exact Hstep. }
    split; [rewrite IsInBounds_header; apply isInBounds_false; lia|].
    split; [rewrite IsInBounds_header; apply isInBounds_true; lia|].
    split; [exact Heq|]. rewrite Heq, GetIndex_getBlockIndex.
    change ChunkH.CHUNK_VOLUME with 65536.
    apply getBlockIndex_range, isInBounds_true. lia.
Qed.

(** ** Key and mouse state *)

Lemma keyCount_small (h : Input.InputHandler) :
  Z.of_nat (length (Input.m_keyStates h)) ≤ INT_MAX →
  Input.keyCount h = Z.of_nat (length (Input.m_keyStates h)).
Proof.
  intros H. unfold Input.keyCount. apply wrap_int_small.
  unfold INT_MIN, INT_MAX in *. lia.
Qed.

Lemma keyInRange_true (h : Input.InputHandler) (k : Z) :
  Z.of_nat (length (Input.m_keyStates h)) ≤ INT_MAX →
  Input.keyInRange h k = true ↔
  0 ≤ k < Z.of_nat (length (Input.m_keyStates h)).
Proof.
  intros H. unfold Input.keyInRange. rewrite keyCount_small by done.
  rewrite andb_true_iff, Z.leb_le, Z.ltb_lt. done.
Qed.

Lemma isKeyPressed_lookup (h : Input.InputHandler) (k : Z) :
  Z.of_nat (length (Input.m_keyStates h)) ≤ INT_MAX →
  0 ≤ k < Z.of_nat (length (Input.m_keyStates h)) →
  Input.isKeyPressed h k = Input.m_keyStates h !! Z.to_nat k.
Proof.
  intros H Hk. unfold Input.isKeyPressed, vector_at.
  rewrite (proj2 (keyInRange_true h k H)) by done.
  by rewrite decide_True by lia.
Qed.

Lemma isKeyPressed_out_of_range (h : Input.InputHandler) (k : Z) :
  Z.of_nat (length (Input.m_keyStates h)) ≤ INT_MAX →
  ¬ (0 ≤ k < Z.of_nat (length (Input.m_keyStates h))) →
  Input.isKeyPressed h k = Some false.
Proof.
  intros H Hk. unfold Input.isKeyPressed.
  destruct (Input.keyInRange h k) eqn:Hr; [|done].
  by apply keyInRange_true in Hr.
Qed.

(** The effect of one event on the key [k]. *)
Lemma deliver_key (e : Input.Event) (h : Input.InputHandler) (k : Z) (b0 : bool) :
  Z.of_nat (length (Input.m_keyStates h)) ≤ INT_MAX →
  0 ≤ k < Z.of_nat (length (Input.m_keyStates h)) →
  Input.isKeyPressed h k = Some b0 →
  ∃ h', Input.deliver e h = Some h' ∧
    length (Input.m_keyStates h') = length (Input.m_keyStates h) ∧
    Input.isKeyPressed h' k =
      Some (default b0 (Input.lastKeyEvent k [e])).
Proof.
  intros Hlen Hk Hb0.
  assert (∀ k' b, ∃ h',
            (if Input.keyInRange h k' then
               ks ← vector_set (Input.m_keyStates h) k' b;
               Some (Input.set_keyStates h ks)
             else Some h) = Some h' ∧
            length (Input.m_keyStates h') = length (Input.m_keyStates h) ∧
            Input.isKeyPressed h' k =
              Some (if decide (k' = k) then b else b0)) as Hkey.
  { intros k' b. destruct (Input.keyInRange h k') eqn:Hr.
    - apply keyInRange_true in Hr; [|done].
      unfold vector_set. rewrite decide_True by done.
      cbn [mbind option_bind]. eexists. split; [done|].
      cbn [Input.set_keyStates Input.m_keyStates]. rewrite length_insert.
      split; [done|].
      rewrite isKeyPressed_lookup;
        [|cbn [Input.set_keyStates Input.m_keyStates];
          by rewrite length_insert..].
      cbn [Input.set_keyStates Input.m_keyStates].
      case_decide as Hkk.
      + subst k'. apply list_lookup_insert_eq. lia.
      + rewrite list_lookup_insert_ne by lia.
        by rewrite <- isKeyPressed_lookup.
    - exists h. split; [done|]. split; [done|].
      rewrite decide_False; [done|]. intros ->.
      by apply keyInRange_true in Hk; [congruence|]. }
  destruct e; cbn [Input.deliver Input.lastKeyEvent].
  - destruct (Hkey keyCode true) as (h' & Hh' & Hl & Hp).
    exists h'. split; [exact Hh'|]. split; [done|]. rewrite Hp.
    by case_decide.
  - destruct (Hkey keyCode false) as (h' & Hh' & Hl & Hp).
    exists h'. split; [exact Hh'|]. split; [done|]. rewrite Hp.
    by case_decide.
  - eexists. split; [done|]. split; [done|].
    rewrite isKeyPressed_lookup by done.
    by rewrite <- (isKeyPressed_lookup h).
  - eexists. split; [done|]. unfold Input.handleMouseDown.
    destruct (button =? 0); (split; [done|]); [|done].
    rewrite isKeyPressed_lookup by done.
    by rewrite <- (isKeyPressed_lookup h).
  - eexists. split; [done|]. unfold Input.handleMouseUp.
    destruct (button =? 0); (split; [done|]); [|done].
    rewrite isKeyPressed_lookup by done.
    by rewrite <- (isKeyPressed_lookup h).
  - eexists. split; [done|]. split; [done|].
    rewrite isKeyPressed_lookup by done.
    by rewrite <- (isKeyPressed_lookup h).
  - eexists. split; [done|]. split; [done|].
    rewrite isKeyPressed_lookup by done.
    by rewrite <- (isKeyPressed_lookup h).
  - assert (length (Input.m_keyStates (Input.resetInputState h)) =
            length (Input.m_keyStates h)) as Hl
      by apply length_replicate.
    eexists. split; [done|]. split; [exact Hl|].
    rewrite isKeyPressed_lookup by (by rewrite Hl).
    apply lookup_replicate_2. lia.
Qed.

Lemma deliver_total (e : Input.Event) (h : Input.InputHandler) :
  Z.of_nat (length (Input.m_keyStates h)) ≤ INT_MAX →
  ∃ h', Input.deliver e h = Some h' ∧
    length (Input.m_keyStates h') = length (Input.m_keyStates h).
Proof.
  intros Hlen.
  assert (∀ k' b, ∃ h',
            (if Input.keyInRange h k' then
               ks ← vector_set (Input.m_keyStates h) k' b;
               Some (Input.set_keyStates h ks)
             else Some h) = Some h' ∧
            length (Input.m_keyStates h') = length (Input.m_keyStates h))
    as Hkey.
  { intros k' b. destruct (Input.keyInRange h k') eqn:Hr; [|by exists h].
    apply keyInRange_true in Hr; [|done].
    unfold vector_set. rewrite decide_True by done.
    cbn [mbind option_bind]. eexists. split; [done|].
    cbn [Input.set_keyStates Input.m_keyStates]. apply length_insert. }
  destruct e; cbn [Input.deliver];
    [apply Hkey | apply Hkey | by eexists | | | by eexists | by eexists | ].
  - eexists. split; [done|]. unfold Input.handleMouseDown.
    by destruct (button =? 0).
  - eexists. split; [done|]. unfold Input.handleMouseUp.
    by destruct (button =? 0).
  - eexists. split; [done|]. apply length_replicate.
Qed.

(** X20: the key state follows the events: from a handler with at most
    [INT_MAX] keys, every list of events - key codes and buttons of any
    value - is processed without touching the key array out of range and
    without changing its size; afterwards a key code inside the array is
    reported pressed exactly as its last [KeyDown], [KeyUp] or reset among
    the events says, or as before when no event concerned it; and a key
    code outside the array is reported not pressed. *)
Theorem key_state_follows_events (es : list Input.Event)
    (h : Input.InputHandler) (k : Z) :
  Z.of_nat (length (Input.m_keyStates h)) ≤ INT_MAX →
  ∃ h', for_each es Input.deliver h = Some h' ∧
    length (Input.m_keyStates h') = length (Input.m_keyStates h) ∧
    (0 ≤ k < Z.of_nat (length (Input.m_keyStates h)) →
       ∃ b0, Input.isKeyPressed h k = Some b0 ∧
         Input.isKeyPressed h' k =
           Some (default b0 (Input.lastKeyEvent k es))) ∧
    (¬ (0 ≤ k < Z.of_nat (length (Input.m_keyStates h))) →
       Input.isKeyPressed h' k = Some false).
Proof.
  revert h. induction es as [|e es IH]; intros h Hlen.
  - exists h. split; [done|]. split; [done|]. split.
    + intros Hk. rewrite isKeyPressed_lookup by done.
      destruct (lookup_lt_is_Some_2 (Input.m_keyStates h) (Z.to_nat k))
        as [b0 Hb0]; [lia|].
      exists b0. by rewrite Hb0.
    + intros Hk. by apply isKeyPressed_out_of_range.
  - assert (∃ h1, Input.deliver e h = Some h1 ∧
              length (Input.m_keyStates h1) = length (Input.m_keyStates h) ∧
              ∀ b0, 0 ≤ k < Z.of_nat (length (Input.m_keyStates h)) →
                Input.isKeyPressed h k = Some b0 →
                Input.isKeyPressed h1 k =
                  Some (default b0 (Input.lastKeyEvent k [e]))) as Hstep.
    { destruct (deliver_total e h Hlen) as (h1 & H1 & H2).
      exists h1. split; [done|]. split; [done|]. intros b0 Hk Hb0.
      destruct (deliver_key e h k b0 Hlen Hk Hb0) as (h1' & H1' & _ & H3).
      rewrite H1 in H1'. injection H1' as <-. exact H3. }
    destruct Hstep as (h1 & Hh1 & Hl1 & Hk1).
    destruct (IH h1 ltac:(by rewrite Hl1)) as (h' & Hh' & Hl' & Hin & Hout).
    exists h'. cbn [for_each]. rewrite Hh1. split; [done|].
    split; [congruence|]. rewrite Hl1 in Hin, Hout. split; [|done].
    intros Hk. destruct (Hin Hk) as (b1 & Hb1 & Hfinal).
    destruct (lookup_lt_is_Some_2 (Input.m_keyStates h) (Z.to_nat k))
      as [b0 Hb0]; [lia|].
    rewrite <- isKeyPressed_lookup in Hb0 by done.
    exists b0. split; [done|]. rewrite Hfinal.
    specialize (Hk1 b0 Hk Hb0). rewrite Hk1 in Hb1. injection Hb1 as <-.
    cbn [Input.lastKeyEvent].
    destruct (Input.lastKeyEvent k es) as [b|]; [done|]. done.
Qed.

Lemma key_state_follows_events_witness :
  ∃ h', for_each [Input.KeyDown 3; Input.KeyDown 99; Input.MouseDown 1;
                  Input.KeyUp 3; Input.KeyDown 4; Input.Reset;
                  Input.KeyDown 3; Input.KeyUp (-1)]
          Input.deliver (Input.newInputHandler (replicate 8 true)) = Some h' ∧
    length (Input.m_keyStates h') =
      length (Input.m_keyStates (Input.newInputHandler (replicate 8 true))) ∧
    (0 ≤ 3 < Z.of_nat (length (Input.m_keyStates (Input.newInputHandler (replicate 8 true)))) →
       ∃ b0, Input.isKeyPressed (Input.newInputHandler (replicate 8 true)) 3 = Some b0 ∧
         Input.isKeyPressed h' 3 =
           Some (default b0
                   (Input.lastKeyEvent 3
                      [Input.KeyDown 3; Input.KeyDown 99; Input.MouseDown 1;
                       Input.KeyUp 3; Input.KeyDown 4; Input.Reset;
                       Input.KeyDown 3; Input.KeyUp (-1)]))) ∧
    (¬ (0 ≤ 3 < Z.of_nat (length (Input.m_keyStates (Input.newInputHandler (replicate 8 true))))) →
       Input.isKeyPressed h' 3 = Some false).
Proof.
  apply (key_state_follows_events _ (Input.newInputHandler (replicate 8 true)) 3).
  vm_compute. discriminate.
Defined.

Lemma wrap_int_le (n : Z) : 0 ≤ n → wrap_int n ≤ n.
Proof.
  intros Hn. unfold wrap_int.
  pose proof (Z.mod_le (n + 2 ^ 31) (2 ^ 32) ltac:(lia) ltac:(lia)). lia.
Qed.

(** X21: [resetInputState] and [cleanup] both release every key - whatever
    the size of the key array, [isKeyPressed] then answers [false] for
    every key code - but differ in what else they touch: the reset also
    releases the mouse button and zeroes the scroll delta and keeps the
    pointer position and the running flag; [cleanup] clears the running
    flag and keeps the mouse button, the scroll delta and the pointer
    position. *)
Theorem reset_and_cleanup (h : Input.InputHandler) :
  (∀ k, Input.isKeyPressed (Input.resetInputState h) k = Some false) ∧
  (∀ k, Input.isKeyPressed (Input.cleanup h) k = Some false) ∧
  Input.m_mousePressed (Input.resetInputState h) = false ∧
  Input.m_scrollDelta (Input.resetInputState h) = 0 ∧
  Input.getMousePosition (Input.resetInputState h) = Input.getMousePosition h ∧
  Input.m_isRunning (Input.resetInputState h) = Input.m_isRunning h ∧
  Input.m_isRunning (Input.cleanup h) = false ∧
  Input.m_mousePressed (Input.cleanup h) = Input.m_mousePressed h ∧
  Input.m_scrollDelta (Input.cleanup h) = Input.m_scrollDelta h ∧
  Input.getMousePosition (Input.cleanup h) = Input.getMousePosition h.
Proof.
  assert (∀ r x y p s k,
            Input.isKeyPressed
              (Input.mkInput r x y p s (Input.fill_false (Input.m_keyStates h)))
              k = Some false) as Hkeys.
  { intros r x y p s k. unfold Input.isKeyPressed, Input.keyInRange,
      Input.keyCount, Input.fill_false, vector_at.
    cbn [Input.m_keyStates]. rewrite length_replicate.
    destruct (0 <=? k) eqn:H0; [|done]. apply Z.leb_le in H0.
    destruct (k <? _) eqn:H1; [|done]. apply Z.ltb_lt in H1. cbn [andb].
    rewrite decide_True by done. apply lookup_replicate_2.
    pose proof (wrap_int_le (Z.of_nat (length (Input.m_keyStates h)))
                  ltac:(lia)). lia. }
  split; [intros k; apply Hkeys|]. split; [intros k; apply Hkeys|]. done.
Qed.

(** ** The game object *)

Lemma errors_print_cout (items : list GameApp.OutItem) (g : GameApp.Game) :
  GameApp.errors (GameApp.print GameApp.Cout items g) = GameApp.errors g.
Proof.
  unfold GameApp.errors, GameApp.print. cbn [GameApp.output].
  rewrite omap_app. cbn. by rewrite app_nil_r.
Qed.

Lemma errors_print_cerr (items : list GameApp.OutItem) (g : GameApp.Game) :
  GameApp.errors (GameApp.print GameApp.Cerr items g) =
  GameApp.errors g ++ [items].
Proof.
  unfold GameApp.errors, GameApp.print. cbn [GameApp.output].
  by rewrite omap_app.
Qed.

(** X22: a game object is initialised at most once at a time: on a game
    that is not initialised, [initialize] returns [true], sets the
    initialised flag, writes nothing to [std::cerr] and leaves the running
    flag and the window size alone; a second [initialize] returns [false]
    and only reports Game is already initialized on [std::cerr];
    [shutdown] clears both flags, a second [shutdown] does nothing, and
    after it [initialize] succeeds again. *)
Theorem game_lifecycle (g : GameApp.Game) :
  GameApp.isInitialized g = false →
  ∃ g1, GameApp.initialize g = (true, g1) ∧
    GameApp.isInitialized g1 = true ∧
    GameApp.isRunning g1 = GameApp.isRunning g ∧
    GameApp.windowWidth g1 = GameApp.windowWidth g ∧
    GameApp.windowHeight g1 = GameApp.windowHeight g ∧
    GameApp.errors g1 = GameApp.errors g ∧
    (∃ g2, GameApp.initialize g1 = (false, g2) ∧
       GameApp.isInitialized g2 = true ∧
       GameApp.isRunning g2 = GameApp.isRunning g1 ∧
       GameApp.errors g2 =
         GameApp.errors g1 ++ [[GameApp.Text "Game is already initialized"]]) ∧
    GameApp.isInitialized (GameApp.shutdown g1) = false ∧
    GameApp.isRunning (GameApp.shutdown g1) = false ∧
    GameApp.shutdown (GameApp.shutdown g1) = GameApp.shutdown g1 ∧
    fst (GameApp.initialize (GameApp.shutdown g1)) = true.
Proof.
  intros Hinit.
  set (g0 := GameApp.print GameApp.Cout
               [GameApp.Text "Initializing game logic..."]
               (GameApp.print GameApp.Cout
                  [GameApp.Text "Initializing input system..."]
                  (GameApp.print GameApp.Cout
                     [GameApp.Text "Initializing graphics system..."]
                     (GameApp.print GameApp.Cout
                        [GameApp.Text "Initializing game systems..."] g)))).
  set (g1 := GameApp.print GameApp.Cout
               [GameApp.Text "Game initialized successfully"]
               (GameApp.mkGame (GameApp.isRunning g0) true
                  (GameApp.windowWidth g0) (GameApp.windowHeight g0)
                  (GameApp.output g0))).
  assert (GameApp.initialize g = (true, g1)) as Hg1.
  { unfold GameApp.initialize. by rewrite Hinit. }
  assert (GameApp.errors g1 = GameApp.errors g) as Herr.
  { unfold g1. rewrite errors_print_cout.
    change (GameApp.errors g0 = GameApp.errors g).
    unfold g0. by rewrite !errors_print_cout. }
  exists g1. split; [exact Hg1|].
  split; [done|]. split; [done|]. split; [done|]. split; [done|].
  split; [exact Herr|]. split.
  { exists (GameApp.print GameApp.Cerr
              [GameApp.Text "Game is already initialized"] g1).
    split; [done|]. split; [done|]. split; [done|].
    apply errors_print_cerr. }
  done.
Qed.

Lemma game_lifecycle_witness :
  ∃ g1, GameApp.initialize GameApp.newGame = (true, g1) ∧
    GameApp.isInitialized g1 = true ∧
    GameApp.isRunning g1 = GameApp.isRunning GameApp.newGame ∧
    GameApp.windowWidth g1 = GameApp.windowWidth GameApp.newGame ∧
    GameApp.windowHeight g1 = GameApp.windowHeight GameApp.newGame ∧
    GameApp.errors g1 = GameApp.errors GameApp.newGame ∧
    (∃ g2, GameApp.initialize g1 = (false, g2) ∧
       GameApp.isInitialized g2 = true ∧
       GameApp.isRunning g2 = GameApp.isRunning g1 ∧
       GameApp.errors g2 =
         GameApp.errors g1 ++ [[GameApp.Text "Game is already initialized"]]) ∧
    GameApp.isInitialized (GameApp.shutdown g1) = false ∧
    GameApp.isRunning (GameApp.shutdown g1) = false ∧
    GameApp.shutdown (GameApp.shutdown g1) = GameApp.shutdown g1 ∧
    fst (GameApp.initialize (GameApp.shutdown g1)) = true.
Proof. apply (game_lifecycle GameApp.newGame). reflexivity. Defined.



Lemma setWindowSize_cases (w h : Z) (g : GameApp.Game) :
  GameApp.isRunning (GameApp.setWindowSize w h g) = GameApp.isRunning g ∧
  GameApp.isInitialized (GameApp.setWindowSize w h g) =
    GameApp.isInitialized g ∧
  ((0 < w ∧ 0 < h ∧ GameApp.lastValidSize [(w, h)] = Some (w, h) ∧
    GameApp.windowWidth (GameApp.setWindowSize w h g) = w ∧
    GameApp.windowHeight (GameApp.setWindowSize w h g) = h) ∨
   (GameApp.lastValidSize [(w, h)] = None ∧
    GameApp.windowWidth (GameApp.setWindowSize w h g) = GameApp.windowWidth g ∧
    GameApp.windowHeight (GameApp.setWindowSize w h g) =
      GameApp.windowHeight g)).
Proof.
  unfold GameApp.setWindowSize. cbn [GameApp.lastValidSize].
  destruct ((0 <? w) && (0 <? h)) eqn:Hv; (split; [done|]); (split; [done|]).
  - left. apply andb_true_iff in Hv as [Hw%Z.ltb_lt Hh%Z.ltb_lt]. done.
  - by right.
Qed.

(** X24: the window size is the last valid request: after any list of
    [setWindowSize] calls the size is the last requested pair with both
    components positive, or the previous size when there is none; requests
    with a non-positive component are dropped, so a size that was positive
    stays positive; and the calls leave the running and initialised flags
    alone. *)
Theorem window_size_last_valid (sizes : list (Z * Z)) (g : GameApp.Game) :
  let g' := foldl (λ g s, GameApp.setWindowSize (fst s) (snd s) g) g sizes in
  (GameApp.windowWidth g', GameApp.windowHeight g') =
    default (GameApp.windowWidth g, GameApp.windowHeight g)
            (GameApp.lastValidSize sizes) ∧
  (0 < GameApp.windowWidth g → 0 < GameApp.windowHeight g →
     0 < GameApp.windowWidth g' ∧ 0 < GameApp.windowHeight g') ∧
  GameApp.isRunning g' = GameApp.isRunning g ∧
  GameApp.isInitialized g' = GameApp.isInitialized g.
Proof.
  revert g. induction sizes as [|[w h] sizes IH]; intros g; cbn [foldl].
  - cbn. tauto.
  - cbv zeta in IH. cbn [fst snd].
    destruct (IH (GameApp.setWindowSize w h g)) as (Hsize & Hpos & Hr & Hi).
    destruct (setWindowSize_cases w h g) as (Hr1 & Hi1 & Hcases).
    cbv zeta. rewrite Hsize, Hr, Hi.
    cbn [GameApp.lastValidSize] in *.
    destruct Hcases as [(Hw & Hh & Hlast & Hw1 & Hh1)|(Hlast & Hw1 & Hh1)];
      rewrite Hlast, Hw1, Hh1 in *;
      (split; [by destruct (GameApp.lastValidSize sizes)|]);
      (split; [|done]); intros Hw' Hh'; by apply Hpos.
Qed.
